(** * totallylazy.js transducers: lazy sequence pipelines

    A shallow embedding of [src/transducers.ts].

    Generator functions are embedded as the state machines that the
    JavaScript run-time makes of them: a generator object is a value that
    records where its body is suspended, and [next] resumes it up to its
    next [yield] or to its end.  A body may loop for ever (a filter over
    [iterate]), so [next] takes fuel.

    The fields that the transducer objects mutate ([TakeTransducer.count],
    [ScanTransducer.accumilator]) live in a store, by address: every facade
    that holds the same transducer object reads and writes the same field,
    in every consumption.  The store also counts the calls of [next] that
    source iterators receive.

    Numbers are the integers, with [NaN] for what arithmetic on [undefined]
    gives; fractions and infinities are left out.  Mappers, predicates and
    reducers are total functions that raise nothing.  A generator object is
    held by value where it is used: the iterators that a consumption makes
    are its own, and an array gives a fresh iterator to each consumption;
    what is said below of a second consumption is said of facades over
    arrays. *)

From Stdlib Require Import ZArith List Lia Bool.
From stdpp Require Import base option list.
Import ListNotations.

Local Open Scope Z_scope.

Set Warnings "-register-all".

(** ** Values *)

(** The elements that flow through a pipeline.  [Num] holds the numbers that
    are integers; [NaN] is what arithmetic on [undefined] gives. *)
Inductive value : Type :=
| Undefined
| Num (n : Z)
| NaN.

(** [Number.MAX_SAFE_INTEGER], [2^53 - 1], and [Number.isSafeInteger] on an
    integer.  A JavaScript number is a double: every integer up to [2^53] in
    magnitude is one, and a sum or a difference of two of them whose exact
    value is a safe integer is computed exactly.  Past that a double rounds
    ([2^53 + 1] is [2^53]). *)
Definition MAX_SAFE_INTEGER : Z := 9007199254740991.

Definition isSafeInteger (z : Z) : bool := Z.abs z <=? MAX_SAFE_INTEGER.

(** [a + b] on numbers: the exact sum, which is what the code computes as
    long as the sum is a safe integer.  The facts below that depend on the
    value of a sum or a difference are stated for safe integers. *)
Definition js_add (a b : value) : value :=
  match a, b with
  | Num x, Num y => Num (x + y)
  | _, _ => NaN
  end.

(** [a - b] on numbers: the exact difference, likewise. *)
Definition js_sub (a b : value) : value :=
  match a, b with
  | Num x, Num y => Num (x - y)
  | _, _ => NaN
  end.

(** [a <= b] and [a >= b]: comparisons with [undefined] or [NaN] are false. *)
Definition js_le (a b : value) : bool :=
  match a, b with
  | Num x, Num y => x <=? y
  | _, _ => false
  end.

Definition js_ge (a b : value) : bool :=
  match a, b with
  | Num x, Num y => x >=? y
  | _, _ => false
  end.

(** [v == 0] for the count of a [TakeTransducer]. *)
Definition js_is_zero (v : value) : bool :=
  match v with
  | Num 0 => true
  | _ => false
  end.

(** [--v]: the decremented number. *)
Definition js_decrement (v : value) : value := js_sub v (Num 1).

(** [v !== undefined]. *)
Definition js_defined (v : value) : bool :=
  match v with
  | Undefined => false
  | _ => true
  end.

(** ** Transformation contracts *)

Definition Mapper := value -> value.
Definition Predicate := value -> bool.

(** [interface Reducer]: the fold step [call] and the seed [identity()]. *)
Module Reducer.
Record t : Type := Build { call : value -> value -> value; identity : value }.
End Reducer.

(** ** The store *)

(** [fields] holds the mutable field of every [TakeTransducer] ([count]) and
    [ScanTransducer] ([accumilator]) allocated so far, by address; [pulls]
    counts the calls of [next] that source iterators have received. *)
Record World : Type := { fields : list value; pulls : nat }.

Abbreviation loc := nat (only parsing).

Definition read (w : World) (l : loc) : value :=
  match fields w !! l with
  | Some v => v
  | None => Undefined
  end.

Definition write (w : World) (l : loc) (v : value) : World :=
  {| fields := <[l := v]> (fields w); pulls := pulls w |}.

Definition alloc (w : World) (v : value) : World * loc :=
  ({| fields := fields w ++ [v]; pulls := pulls w |}, length (fields w)).

Definition pulled (w : World) : World :=
  {| fields := fields w; pulls := S (pulls w) |}.

(** ** Transducers *)

(** The class hierarchy below [Transducer].  The stateful classes hold the
    address of their mutable field. *)
Inductive Transducer : Type :=
| IdentityTransducer
| FirstTransducer
| LastTransducer
| MapTransducer (mapper : Mapper)
| FilterTransducer (predicate : Predicate)
| CompositeTransducer (a b : Transducer)
| ScanTransducer (reducer : Reducer.t) (accumilator : loc)
| TakeTransducer (count : loc)
| TakeWhileTransducer (predicate : Predicate).

Definition identity : Transducer := IdentityTransducer.

Definition transducer : Transducer := identity.

Definition compose (b a : Transducer) : Transducer := CompositeTransducer a b.

Fixpoint decompose (transducer : Transducer) : list Transducer :=
  match transducer with
  | CompositeTransducer a b => decompose a ++ decompose b
  | _ => [transducer]
  end.

Definition first (transducer : Transducer) : Transducer :=
  compose FirstTransducer transducer.

Definition last (transducer : Transducer) : Transducer :=
  compose LastTransducer transducer.

Definition map (mapper : Mapper) (transducer : Transducer) : Transducer :=
  compose (MapTransducer mapper) transducer.

Definition filter (predicate : Predicate) (transducer : Transducer) : Transducer :=
  compose (FilterTransducer predicate) transducer.

Definition find (predicate : Predicate) (transducer : Transducer) : Transducer :=
  first (filter predicate transducer).

(** [new ScanTransducer(reducer)]: the accumulator defaults to
    [reducer.identity()] and is stored in the new object. *)
Definition new_ScanTransducer (reducer : Reducer.t) (w : World) : World * Transducer :=
  let (w', l) := alloc w (Reducer.identity reducer) in
  (w', ScanTransducer reducer l).

Definition scan (reducer : Reducer.t) (transducer : Transducer) (w : World)
  : World * Transducer :=
  let (w', s) := new_ScanTransducer reducer w in
  (w', compose s transducer).

Definition reduce (reducer : Reducer.t) (transducer : Transducer) (w : World)
  : World * Transducer :=
  let (w', s) := scan reducer transducer w in
  (w', last s).

Definition new_TakeTransducer (count : Z) (w : World) : World * Transducer :=
  let (w', l) := alloc w (Num count) in
  (w', TakeTransducer l).

Definition take (count : Z) (transducer : Transducer) (w : World)
  : World * Transducer :=
  let (w', t) := new_TakeTransducer count w in
  (w', compose t transducer).

Definition takeWhile (predicate : Predicate) (transducer : Transducer) : Transducer :=
  compose (TakeWhileTransducer predicate) transducer.

(** The methods of [class Transducer], which hand [this] to the functions
    above. *)
Definition Transducer_compose (this other : Transducer) : Transducer :=
  compose other this.

Definition Transducer_decompose (this : Transducer) : list Transducer :=
  decompose this.

Definition Transducer_map (this : Transducer) (mapper : Mapper) : Transducer :=
  map mapper this.

Definition Transducer_filter (this : Transducer) (predicate : Predicate) : Transducer :=
  filter predicate this.

Definition Transducer_find (this : Transducer) (predicate : Predicate) : Transducer :=
  find predicate this.

Definition Transducer_first (this : Transducer) : Transducer := first this.

Definition Transducer_last (this : Transducer) : Transducer := last this.

Definition Transducer_take (this : Transducer) (count : Z) (w : World)
  : World * Transducer :=
  take count this w.

Definition Transducer_takeWhile (this : Transducer) (predicate : Predicate) : Transducer :=
  takeWhile predicate this.

Definition Transducer_scan (this : Transducer) (reducer : Reducer.t) (w : World)
  : World * Transducer :=
  scan reducer this w.

Definition Transducer_reduce (this : Transducer) (reducer : Reducer.t) (w : World)
  : World * Transducer :=
  reduce reducer this w.

(** [class Sum] and its instance [sum]. *)
Definition Sum : Reducer.t :=
  {| Reducer.call := fun a b => js_add a b; Reducer.identity := Num 0 |}.

Definition sum : Reducer.t := Sum.

Definition increment (a : value) : value := js_add a (Num 1).

(** [add(a)] and [subtract(a)], the curried forms [range] uses. *)
Definition add (a : value) : value -> value := fun b => js_add a b.

Definition subtract (a : value) : value -> value := fun b => js_sub b a.

(** ** Iterables, iterators and generator objects *)

(** Where the body of a generator function that loops over its argument is
    suspended: before its first statement (it holds the argument), at a
    [yield] (it holds the iterator of its loop), or after its end.  A body
    that leaves its loop early closes the iterator of the loop; a completed
    generator holds no iterator any more. *)
Inductive ForOf (I : Type) : Type :=
| SuspendedStart (iterable : I)
| SuspendedYield (iterator : I)
| Completed.

Arguments SuspendedStart {I} iterable.
Arguments SuspendedYield {I} iterator.
Arguments Completed {I}.

(** Synchronous iterables.  An array gives a fresh iterator at each
    [Symbol.iterator] call; an iterator and a generator object give
    themselves.  The [...Sync] constructors are the generator objects of the
    [sync] methods, with the fields of [this] that the body reads. *)
Inductive Iterable : Type :=
| ArrayIterable (xs : list value)
| ArrayIterator (rest : list value)
| IterableGenerator (t : list value)
| IterateGenerator (generator : value -> value) (value_ : value) (started : bool)
| RangeGenerator (start : Z) (end_ : option Z) (step : Z)
| YieldStar (inner : Iterable)
| CompletedGenerator
| FirstSync (st : ForOf Iterable)
| LastSync (st : ForOf Iterable)
| MapSync (mapper : Mapper) (st : ForOf Iterable)
| FilterSync (predicate : Predicate) (st : ForOf Iterable)
| ScanSync (reducer : Reducer.t) (accumilator : loc) (st : ForOf Iterable)
| TakeSync (count : loc) (st : ForOf Iterable)
| TakeWhileSync (predicate : Predicate) (st : ForOf Iterable).

(** Asynchronous iterables: an asynchronous source that will produce the
    given elements, and the generator objects of the [async_] methods. *)
Inductive AsyncIterable : Type :=
| AsyncSource (rest : list value)
| FirstAsync (st : ForOf AsyncIterable)
| LastAsync (st : ForOf AsyncIterable)
| MapAsync (mapper : Mapper) (st : ForOf AsyncIterable)
| FilterAsync (predicate : Predicate) (st : ForOf AsyncIterable)
| ScanAsync (reducer : Reducer.t) (accumilator : loc) (st : ForOf AsyncIterable)
| TakeAsync (count : loc) (st : ForOf AsyncIterable)
| TakeWhileAsync (predicate : Predicate) (st : ForOf AsyncIterable).

(** [iterable[Symbol.iterator]()]. *)
Definition GetIterator (iterable : Iterable) : Iterable :=
  match iterable with
  | ArrayIterable xs => ArrayIterator xs
  | _ => iterable
  end.

(** The iterator a loop pulls from when its generator is resumed, if its
    body has not returned. *)
Definition loop_iterator (st : ForOf Iterable) : option Iterable :=
  match st with
  | SuspendedStart iterable => Some (GetIterator iterable)
  | SuspendedYield iterator => Some iterator
  | Completed => None
  end.

Definition loop_async_iterator (st : ForOf AsyncIterable) : option AsyncIterable :=
  match st with
  | SuspendedStart iterable => Some iterable
  | SuspendedYield iterator => Some iterator
  | Completed => None
  end.

(** [Transducer.sync]: calling a generator method makes a generator object
    and runs nothing. *)
Fixpoint sync (t : Transducer) (iterable : Iterable) : Iterable :=
  match t with
  | IdentityTransducer => iterable
  | FirstTransducer => FirstSync (SuspendedStart iterable)
  | LastTransducer => LastSync (SuspendedStart iterable)
  | MapTransducer mapper => MapSync mapper (SuspendedStart iterable)
  | FilterTransducer predicate => FilterSync predicate (SuspendedStart iterable)
  | CompositeTransducer a b => sync b (sync a iterable)
  | ScanTransducer reducer accumilator =>
      ScanSync reducer accumilator (SuspendedStart iterable)
  | TakeTransducer count => TakeSync count (SuspendedStart iterable)
  | TakeWhileTransducer predicate => TakeWhileSync predicate (SuspendedStart iterable)
  end.

(** [Transducer.async_]. *)
Fixpoint async_ (t : Transducer) (iterable : AsyncIterable) : AsyncIterable :=
  match t with
  | IdentityTransducer => iterable
  | FirstTransducer => FirstAsync (SuspendedStart iterable)
  | LastTransducer => LastAsync (SuspendedStart iterable)
  | MapTransducer mapper => MapAsync mapper (SuspendedStart iterable)
  | FilterTransducer predicate => FilterAsync predicate (SuspendedStart iterable)
  | CompositeTransducer a b => async_ b (async_ a iterable)
  | ScanTransducer reducer accumilator =>
      ScanAsync reducer accumilator (SuspendedStart iterable)
  | TakeTransducer count => TakeAsync count (SuspendedStart iterable)
  | TakeWhileTransducer predicate => TakeWhileAsync predicate (SuspendedStart iterable)
  end.

(** ** Facades and the factory *)

(** A JavaScript value as the factory sees it: [undefined] or [null], a
    function of no argument whose call returns, with the value it returns,
    or any other value with what its [Symbol.iterator] and
    [Symbol.asyncIterator] properties give.  A function whose call throws (a
    class called without [new], for one) is left out: the factory ends with
    the error of that call, before any probe. *)
Record Obj : Type :=
  { symbolIterator : option Iterable; symbolAsyncIterator : option AsyncIterable }.

Inductive JsValue : Type :=
| JsNullish
| JsFunction (returns : JsValue)
| JsObject (o : Obj).

Record Sequence : Type :=
  { Sequence_iterable : JsValue; Sequence_transducer : Transducer }.

Record AsyncSequence : Type :=
  { AsyncSequence_iterable : JsValue; AsyncSequence_transducer : Transducer }.

Inductive Facade : Type :=
| IsSequence (s : Sequence)
| IsAsyncSequence (s : AsyncSequence).

(** How a call ends: with a value, or with the [TypeError] that reading a
    property of [undefined] or [null] raises. *)
Inductive Completion (A : Type) : Type :=
| Returned (a : A)
| ThrewTypeError.

Arguments Returned {A} a.
Arguments ThrewTypeError {A}.

(** [Sequence.of] and [AsyncSequence.of]: an absent transducer defaults to
    [identity()]. *)
Definition Sequence_of (iterable : JsValue) (transducer : option Transducer) : Sequence :=
  {| Sequence_iterable := iterable;
     Sequence_transducer := match transducer with Some t => t | None => identity end |}.

Definition AsyncSequence_of (iterable : JsValue) (transducer : option Transducer)
  : AsyncSequence :=
  {| AsyncSequence_iterable := iterable;
     AsyncSequence_transducer := match transducer with Some t => t | None => identity end |}.

Definition isIterable (instance : JsValue) : Completion bool :=
  match instance with
  | JsNullish => ThrewTypeError
  | JsFunction _ => Returned false
  | JsObject o => Returned (bool_decide (symbolIterator o <> None))
  end.

Definition isAsyncIterable (instance : JsValue) : Completion bool :=
  match instance with
  | JsNullish => ThrewTypeError
  | JsFunction _ => Returned false
  | JsObject o => Returned (bool_decide (symbolAsyncIterator o <> None))
  end.

(** [sequence(iterable, transducer?)]; [Returned None] is a call that ends
    without a [return] statement and so gives [undefined]. *)
Definition sequence (iterable : JsValue) (transducer : option Transducer)
  : Completion (option Facade) :=
  let iterable :=
    match iterable with
    | JsFunction returns => returns
    | _ => iterable
    end in
  match transducer with
  | None =>
      match isIterable iterable with
      | ThrewTypeError => ThrewTypeError
      | Returned true => Returned (Some (IsSequence (Sequence_of iterable None)))
      | Returned false =>
          match isAsyncIterable iterable with
          | ThrewTypeError => ThrewTypeError
          | Returned true => Returned (Some (IsAsyncSequence (AsyncSequence_of iterable None)))
          | Returned false => Returned None
          end
      end
  | Some t =>
      match isIterable iterable with
      | ThrewTypeError => ThrewTypeError
      | Returned true => Returned (Some (IsSequence (Sequence_of iterable (Some t))))
      | Returned false =>
          match isAsyncIterable iterable with
          | ThrewTypeError => ThrewTypeError
          | Returned true =>
              Returned (Some (IsAsyncSequence (AsyncSequence_of iterable (Some t))))
          | Returned false => Returned None
          end
      end
  end.

(** [Sequence[Symbol.iterator]()]: the iterator of
    [this.transducer.sync(this.iterable)].  [None] when the source has no
    [Symbol.iterator], which the type of [Sequence.of] excludes. *)
Definition Sequence_symbolIterator (s : Sequence) : option Iterable :=
  match Sequence_iterable s with
  | JsObject o =>
      match symbolIterator o with
      | Some iterable => Some (GetIterator (sync (Sequence_transducer s) iterable))
      | None => None
      end
  | _ => None
  end.

(** [AsyncSequence[Symbol.asyncIterator]()]. *)
Definition AsyncSequence_symbolAsyncIterator (s : AsyncSequence) : option AsyncIterable :=
  match AsyncSequence_iterable s with
  | JsObject o =>
      match symbolAsyncIterator o with
      | Some iterable => Some (async_ (AsyncSequence_transducer s) iterable)
      | None => None
      end
  | _ => None
  end.

(** *** The chaining methods of [Sequence] *)

Definition Sequence_map (mapper : Mapper) (s : Sequence) : Completion (option Facade) :=
  sequence (Sequence_iterable s) (Some (Transducer_map (Sequence_transducer s) mapper)).

Definition Sequence_filter (predicate : Predicate) (s : Sequence)
  : Completion (option Facade) :=
  sequence (Sequence_iterable s) (Some (Transducer_filter (Sequence_transducer s) predicate)).

Definition Sequence_find (predicate : Predicate) (s : Sequence)
  : Completion (option Facade) :=
  sequence (Sequence_iterable s) (Some (Transducer_find (Sequence_transducer s) predicate)).

Definition Sequence_first (s : Sequence) : Completion (option Facade) :=
  sequence (Sequence_iterable s) (Some (Transducer_first (Sequence_transducer s))).

Definition Sequence_last (s : Sequence) : Completion (option Facade) :=
  sequence (Sequence_iterable s) (Some (Transducer_first (Sequence_transducer s))).

Definition Sequence_take (count : Z) (s : Sequence) (w : World)
  : World * Completion (option Facade) :=
  let (w', t) := Transducer_take (Sequence_transducer s) count w in
  (w', sequence (Sequence_iterable s) (Some t)).

Definition Sequence_takeWhile (predicate : Predicate) (s : Sequence)
  : Completion (option Facade) :=
  sequence (Sequence_iterable s) (Some (Transducer_takeWhile (Sequence_transducer s) predicate)).

Definition Sequence_scan (reducer : Reducer.t) (s : Sequence) (w : World)
  : World * Completion (option Facade) :=
  let (w', t) := Transducer_scan (Sequence_transducer s) reducer w in
  (w', sequence (Sequence_iterable s) (Some t)).

Definition Sequence_reduce (reducer : Reducer.t) (s : Sequence) (w : World)
  : World * Completion (option Facade) :=
  let (w', t) := Transducer_reduce (Sequence_transducer s) reducer w in
  (w', sequence (Sequence_iterable s) (Some t)).

(** *** The chaining methods of [AsyncSequence] *)

Definition AsyncSequence_map (mapper : Mapper) (s : AsyncSequence)
  : Completion (option Facade) :=
  sequence (AsyncSequence_iterable s) (Some (Transducer_map (AsyncSequence_transducer s) mapper)).

Definition AsyncSequence_filter (predicate : Predicate) (s : AsyncSequence)
  : Completion (option Facade) :=
  sequence (AsyncSequence_iterable s)
    (Some (Transducer_filter (AsyncSequence_transducer s) predicate)).

Definition AsyncSequence_find (predicate : Predicate) (s : AsyncSequence)
  : Completion (option Facade) :=
  sequence (AsyncSequence_iterable s)
    (Some (Transducer_find (AsyncSequence_transducer s) predicate)).

Definition AsyncSequence_first (s : AsyncSequence) : Completion (option Facade) :=
  sequence (AsyncSequence_iterable s) (Some (Transducer_first (AsyncSequence_transducer s))).

Definition AsyncSequence_last (s : AsyncSequence) : Completion (option Facade) :=
  sequence (AsyncSequence_iterable s) (Some (Transducer_last (AsyncSequence_transducer s))).

Definition AsyncSequence_take (count : Z) (s : AsyncSequence) (w : World)
  : World * Completion (option Facade) :=
  let (w', t) := Transducer_take (AsyncSequence_transducer s) count w in
  (w', sequence (AsyncSequence_iterable s) (Some t)).

Definition AsyncSequence_takeWhile (predicate : Predicate) (s : AsyncSequence)
  : Completion (option Facade) :=
  sequence (AsyncSequence_iterable s)
    (Some (Transducer_takeWhile (AsyncSequence_transducer s) predicate)).

Definition AsyncSequence_scan (reducer : Reducer.t) (s : AsyncSequence) (w : World)
  : World * Completion (option Facade) :=
  let (w', t) := Transducer_scan (AsyncSequence_transducer s) reducer w in
  (w', sequence (AsyncSequence_iterable s) (Some t)).

Definition AsyncSequence_reduce (reducer : Reducer.t) (s : AsyncSequence) (w : World)
  : World * Completion (option Facade) :=
  let (w', t) := Transducer_reduce (AsyncSequence_transducer s) reducer w in
  (w', sequence (AsyncSequence_iterable s) (Some t)).

(** ** Numeric generators *)

(** An array, a generator object and an asynchronous source as values. *)
Definition array (xs : list value) : JsValue :=
  JsObject {| symbolIterator := Some (ArrayIterable xs); symbolAsyncIterator := None |}.

Definition generator_object (g : Iterable) : JsValue :=
  JsObject {| symbolIterator := Some g; symbolAsyncIterator := None |}.

Definition async_source (xs : list value) : JsValue :=
  JsObject {| symbolIterator := None; symbolAsyncIterator := Some (AsyncSource xs) |}.

(** [iterable(...t)]: the generator object of [function* iterable]. *)
Definition iterable (t : list value) : JsValue := generator_object (IterableGenerator t).

(** [iterate(generator, value)]: the factory calls the generator function it
    is given, which makes the generator object. *)
Definition iterate (generator : value -> value) (v : value) : Completion (option Facade) :=
  sequence (JsFunction (generator_object (IterateGenerator generator v false))) None.

Definition range (start : Z) (end_ : option Z) (step : Z) : Completion (option Facade) :=
  sequence (JsFunction (generator_object (RangeGenerator start end_ step))) None.

(** The facade a call typed [Sequence<T>] gave, to call a method on it. *)
Definition as_Sequence (c : Completion (option Facade)) : option Sequence :=
  match c with
  | Returned (Some (IsSequence s)) => Some s
  | _ => None
  end.

(** The sequence that the body of [range]'s generator hands to [yield*]. *)
Definition range_delegate (start : Z) (end_ : option Z) (step : Z) : option Sequence :=
  match end_ with
  | None => as_Sequence (iterate increment (Num start))
  | Some e =>
      let absoluteStep := Z.abs step in
      if e <? start
      then
        match as_Sequence (iterate (subtract (Num absoluteStep)) (Num start)) with
        | Some s => as_Sequence (Sequence_takeWhile (fun n => js_ge n (Num e)) s)
        | None => None
        end
      else
        match as_Sequence (iterate (add (Num absoluteStep)) (Num start)) with
        | Some s => as_Sequence (Sequence_takeWhile (fun n => js_le n (Num e)) s)
        | None => None
        end
  end.

(** ** Running generator objects *)

(** What a call of [next] gives: [{value, done: false}] or [{done: true}]. *)
Inductive IteratorResult : Type :=
| Yield (v : value)
| Done.

Definition Step (I : Type) : Type := option (World * I * IteratorResult).

(** [next fuel w it] resumes the iterator [it] in the store [w]: it gives the
    store and the iterator after the call, and what the call returned.
    [None] is a call that [fuel] steps do not finish (or a call of [next] on
    an array, which has no such method).  [for_last] is the loop
    [for (last of iterable);] of [LastTransducer.sync], from the given value
    of [last] on: it gives the value [last] has when the loop ends. *)
Fixpoint next (fuel : nat) (w : World) (it : Iterable) {struct fuel} : Step Iterable :=
  match fuel with
  | O => None
  | S fuel =>
      match it with
      | ArrayIterable _ => None
      | ArrayIterator rest =>
          match rest with
          | [] => Some (pulled w, ArrayIterator [], Done)
          | a :: rest' => Some (pulled w, ArrayIterator rest', Yield a)
          end
      | IterableGenerator t => next fuel w (YieldStar (GetIterator (ArrayIterable t)))
      | IterateGenerator generator v started =>
          let v' := if started then generator v else v in
          Some (pulled w, IterateGenerator generator v' true, Yield v')
      | RangeGenerator start end_ step =>
          match range_delegate start end_ step with
          | Some s =>
              match Sequence_symbolIterator s with
              | Some inner => next fuel w (YieldStar inner)
              | None => None
              end
          | None => None
          end
      | YieldStar inner =>
          match next fuel w inner with
          | None => None
          | Some (w', inner', Yield a) => Some (w', YieldStar inner', Yield a)
          | Some (w', _, Done) => Some (w', CompletedGenerator, Done)
          end
      | CompletedGenerator => Some (w, CompletedGenerator, Done)
      | FirstSync st =>
          match st with
          | SuspendedStart iterable =>
              match next fuel w (GetIterator iterable) with
              | None => None
              | Some (w', it', Yield a) => Some (w', FirstSync (SuspendedYield it'), Yield a)
              | Some (w', _, Done) => Some (w', FirstSync Completed, Done)
              end
          | SuspendedYield _ => Some (w, FirstSync Completed, Done)
          | Completed => Some (w, FirstSync Completed, Done)
          end
      | LastSync st =>
          match st with
          | SuspendedStart iterable =>
              match for_last fuel w (GetIterator iterable) Undefined with
              | None => None
              | Some (w', it', last) =>
                  if js_defined last
                  then Some (w', LastSync (SuspendedYield it'), Yield last)
                  else Some (w', LastSync Completed, Done)
              end
          | SuspendedYield _ => Some (w, LastSync Completed, Done)
          | Completed => Some (w, LastSync Completed, Done)
          end
      | MapSync mapper st =>
          match loop_iterator st with
          | None => Some (w, MapSync mapper Completed, Done)
          | Some it =>
              match next fuel w it with
              | None => None
              | Some (w', it', Yield a) =>
                  Some (w', MapSync mapper (SuspendedYield it'), Yield (mapper a))
              | Some (w', _, Done) => Some (w', MapSync mapper Completed, Done)
              end
          end
      | FilterSync predicate st =>
          match loop_iterator st with
          | None => Some (w, FilterSync predicate Completed, Done)
          | Some it =>
              match next fuel w it with
              | None => None
              | Some (w', it', Yield a) =>
                  if predicate a
                  then Some (w', FilterSync predicate (SuspendedYield it'), Yield a)
                  else next fuel w' (FilterSync predicate (SuspendedYield it'))
              | Some (w', _, Done) => Some (w', FilterSync predicate Completed, Done)
              end
          end
      | ScanSync reducer accumilator st =>
          match loop_iterator st with
          | None => Some (w, ScanSync reducer accumilator Completed, Done)
          | Some it =>
              match next fuel w it with
              | None => None
              | Some (w', it', Yield a) =>
                  let v := Reducer.call reducer (read w' accumilator) a in
                  Some (write w' accumilator v,
                        ScanSync reducer accumilator (SuspendedYield it'), Yield v)
              | Some (w', _, Done) => Some (w', ScanSync reducer accumilator Completed, Done)
              end
          end
      | TakeSync count st =>
          let loop w it :=
            match next fuel w it with
            | None => None
            | Some (w', it', Yield a) => Some (w', TakeSync count (SuspendedYield it'), Yield a)
            | Some (w', _, Done) => Some (w', TakeSync count Completed, Done)
            end in
          match st with
          | SuspendedStart iterable =>
              if js_is_zero (read w count)
              then Some (w, TakeSync count Completed, Done)
              else loop w (GetIterator iterable)
          | SuspendedYield it =>
              let c := js_decrement (read w count) in
              let w := write w count c in
              if js_is_zero c
              then Some (w, TakeSync count Completed, Done)
              else loop w it
          | Completed => Some (w, TakeSync count Completed, Done)
          end
      | TakeWhileSync predicate st =>
          match loop_iterator st with
          | None => Some (w, TakeWhileSync predicate Completed, Done)
          | Some it =>
              match next fuel w it with
              | None => None
              | Some (w', it', Yield a) =>
                  if predicate a
                  then Some (w', TakeWhileSync predicate (SuspendedYield it'), Yield a)
                  else Some (w', TakeWhileSync predicate Completed, Done)
              | Some (w', _, Done) => Some (w', TakeWhileSync predicate Completed, Done)
              end
          end
      end
  end
with for_last (fuel : nat) (w : World) (it : Iterable) (last : value) {struct fuel}
  : option (World * Iterable * value) :=
  match fuel with
  | O => None
  | S fuel =>
      match next fuel w it with
      | None => None
      | Some (w', it', Yield a) => for_last fuel w' it' a
      | Some (w', it', Done) => Some (w', it', last)
      end
  end.

(** [[...iterator]]: pulls until the iterator is done. *)
Fixpoint spread (fuel : nat) (w : World) (it : Iterable) : option (World * list value) :=
  match fuel with
  | O => None
  | S fuel =>
      match next fuel w it with
      | None => None
      | Some (w', it', Yield a) =>
          match spread fuel w' it' with
          | Some (w'', l) => Some (w'', a :: l)
          | None => None
          end
      | Some (w', _, Done) => Some (w', [])
      end
  end.

(** [syncArray(s)] for a facade [s]: [[...s]] asks [s] for its iterator and
    drains it. *)
Definition syncArray (fuel : nat) (w : World) (s : Sequence) : option (World * list value) :=
  match Sequence_symbolIterator s with
  | Some it => spread fuel w it
  | None => None
  end.

(** [async_next fuel w it]: the asynchronous iterator [it] resumed in the
    store [w], with what the promise that its [next] returns settles to.
    [for_await_last] is the loop [for await (last of iterable);] of
    [LastTransducer.async_]. *)
Fixpoint async_next (fuel : nat) (w : World) (it : AsyncIterable) {struct fuel}
  : Step AsyncIterable :=
  match fuel with
  | O => None
  | S fuel =>
      match it with
      | AsyncSource rest =>
          match rest with
          | [] => Some (pulled w, AsyncSource [], Done)
          | a :: rest' => Some (pulled w, AsyncSource rest', Yield a)
          end
      | FirstAsync st =>
          match st with
          | SuspendedStart iterable =>
              match async_next fuel w iterable with
              | None => None
              | Some (w', it', Yield a) => Some (w', FirstAsync (SuspendedYield it'), Yield a)
              | Some (w', _, Done) => Some (w', FirstAsync Completed, Done)
              end
          | SuspendedYield _ => Some (w, FirstAsync Completed, Done)
          | Completed => Some (w, FirstAsync Completed, Done)
          end
      | LastAsync st =>
          match st with
          | SuspendedStart iterable =>
              match for_await_last fuel w iterable Undefined with
              | None => None
              | Some (w', it', last) =>
                  if js_defined last
                  then Some (w', LastAsync (SuspendedYield it'), Yield last)
                  else Some (w', LastAsync Completed, Done)
              end
          | SuspendedYield _ => Some (w, LastAsync Completed, Done)
          | Completed => Some (w, LastAsync Completed, Done)
          end
      | MapAsync mapper st =>
          match loop_async_iterator st with
          | None => Some (w, MapAsync mapper Completed, Done)
          | Some it =>
              match async_next fuel w it with
              | None => None
              | Some (w', it', Yield a) =>
                  Some (w', MapAsync mapper (SuspendedYield it'), Yield (mapper a))
              | Some (w', _, Done) => Some (w', MapAsync mapper Completed, Done)
              end
          end
      | FilterAsync predicate st =>
          match loop_async_iterator st with
          | None => Some (w, FilterAsync predicate Completed, Done)
          | Some it =>
              match async_next fuel w it with
              | None => None
              | Some (w', it', Yield a) =>
                  if predicate a
                  then Some (w', FilterAsync predicate (SuspendedYield it'), Yield a)
                  else async_next fuel w' (FilterAsync predicate (SuspendedYield it'))
              | Some (w', _, Done) => Some (w', FilterAsync predicate Completed, Done)
              end
          end
      | ScanAsync reducer accumilator st =>
          match loop_async_iterator st with
          | None => Some (w, ScanAsync reducer accumilator Completed, Done)
          | Some it =>
              match async_next fuel w it with
              | None => None
              | Some (w', it', Yield a) =>
                  let v := Reducer.call reducer (read w' accumilator) a in
                  Some (write w' accumilator v,
                        ScanAsync reducer accumilator (SuspendedYield it'), Yield v)
              | Some (w', _, Done) => Some (w', ScanAsync reducer accumilator Completed, Done)
              end
          end
      | TakeAsync count st =>
          let loop w it :=
            match async_next fuel w it with
            | None => None
            | Some (w', it', Yield a) => Some (w', TakeAsync count (SuspendedYield it'), Yield a)
            | Some (w', _, Done) => Some (w', TakeAsync count Completed, Done)
            end in
          match st with
          | SuspendedStart iterable =>
              if js_is_zero (read w count)
              then Some (w, TakeAsync count Completed, Done)
              else loop w iterable
          | SuspendedYield it =>
              let c := js_decrement (read w count) in
              let w := write w count c in
              if js_is_zero c
              then Some (w, TakeAsync count Completed, Done)
              else loop w it
          | Completed => Some (w, TakeAsync count Completed, Done)
          end
      | TakeWhileAsync predicate st =>
          match loop_async_iterator st with
          | None => Some (w, TakeWhileAsync predicate Completed, Done)
          | Some it =>
              match async_next fuel w it with
              | None => None
              | Some (w', it', Yield a) =>
                  if predicate a
                  then Some (w', TakeWhileAsync predicate (SuspendedYield it'), Yield a)
                  else Some (w', TakeWhileAsync predicate Completed, Done)
              | Some (w', _, Done) => Some (w', TakeWhileAsync predicate Completed, Done)
              end
          end
      end
  end
with for_await_last (fuel : nat) (w : World) (it : AsyncIterable) (last : value)
  {struct fuel} : option (World * AsyncIterable * value) :=
  match fuel with
  | O => None
  | S fuel =>
      match async_next fuel w it with
      | None => None
      | Some (w', it', Yield a) => for_await_last fuel w' it' a
      | Some (w', it', Done) => Some (w', it', last)
      end
  end.

(** The loop of [asyncArray]: [for await (const value of iterable)
    result.push(value)], with the array the promise resolves to. *)
Fixpoint for_await_push (fuel : nat) (w : World) (it : AsyncIterable)
  : option (World * list value) :=
  match fuel with
  | O => None
  | S fuel =>
      match async_next fuel w it with
      | None => None
      | Some (w', it', Yield a) =>
          match for_await_push fuel w' it' with
          | Some (w'', l) => Some (w'', a :: l)
          | None => None
          end
      | Some (w', _, Done) => Some (w', [])
      end
  end.

(** [asyncArray(s)] for a facade [s]. *)
Definition asyncArray (fuel : nat) (w : World) (s : AsyncSequence)
  : option (World * list value) :=
  match AsyncSequence_symbolAsyncIterator s with
  | Some it => for_await_push fuel w it
  | None => None
  end.

(** The store before anything is allocated. *)
Definition empty_world : World := {| fields := []; pulls := 0 |}.

(** ** What the facts below are stated with *)

(** The same facade consumed [k] times in a row, with what each consumption
    gave. *)
Fixpoint consume_times (k fuel : nat) (w : World) (s : Sequence)
  : option (World * list (list value)) :=
  match k with
  | O => Some (w, [])
  | S k =>
      match syncArray fuel w s with
      | Some (w', l) =>
          match consume_times k fuel w' s with
          | Some (w'', ls) => Some (w'', l :: ls)
          | None => None
          end
      | None => None
      end
  end.

(** What draining a facade of either kind gives. *)
Definition toArray (fuel : nat) (w : World) (f : Facade) : option (World * list value) :=
  match f with
  | IsSequence s => syncArray fuel w s
  | IsAsyncSequence s => asyncArray fuel w s
  end.

(** The same asynchronous facade consumed [k] times in a row. *)
Fixpoint async_consume_times (k fuel : nat) (w : World) (s : AsyncSequence)
  : option (World * list (list value)) :=
  match k with
  | O => Some (w, [])
  | S k =>
      match asyncArray fuel w s with
      | Some (w', l) =>
          match async_consume_times k fuel w' s with
          | Some (w'', ls) => Some (w'', l :: ls)
          | None => None
          end
      | None => None
      end
  end.

(** The running folds of [reducer] over [xs] from the accumulator [acc]. *)
Fixpoint running (reducer : Reducer.t) (acc : value) (xs : list value) : list value :=
  match xs with
  | [] => []
  | a :: xs' =>
      let acc' := Reducer.call reducer acc a in
      acc' :: running reducer acc' xs'
  end.

(** What [k] consumptions of a scan over [xs] give when the accumulator is
    never seeded again. *)
Fixpoint rescans (reducer : Reducer.t) (acc : value) (xs : list value) (k : nat)
  : list (list value) :=
  match k with
  | O => []
  | S k =>
      running reducer acc xs
        :: rescans reducer (fold_left (Reducer.call reducer) xs acc) xs k
  end.



(** The value the factory probes: what its argument returns when the
    argument is a function, the argument itself when it is not. *)
Definition probed (v : JsValue) : JsValue :=
  match v with
  | JsFunction returns => returns
  | _ => v
  end.

(** The nine chaining calls of the [Contract] interface. *)
Inductive Chain : Type :=
| ChainMap (mapper : Mapper)
| ChainFilter (predicate : Predicate)
| ChainFind (predicate : Predicate)
| ChainFirst
| ChainLast
| ChainTake (count : Z)
| ChainTakeWhile (predicate : Predicate)
| ChainScan (reducer : Reducer.t)
| ChainReduce (reducer : Reducer.t).

Definition Sequence_chain (op : Chain) (s : Sequence) (w : World)
  : World * Completion (option Facade) :=
  match op with
  | ChainMap mapper => (w, Sequence_map mapper s)
  | ChainFilter predicate => (w, Sequence_filter predicate s)
  | ChainFind predicate => (w, Sequence_find predicate s)
  | ChainFirst => (w, Sequence_first s)
  | ChainLast => (w, Sequence_last s)
  | ChainTake count => Sequence_take count s w
  | ChainTakeWhile predicate => (w, Sequence_takeWhile predicate s)
  | ChainScan reducer => Sequence_scan reducer s w
  | ChainReduce reducer => Sequence_reduce reducer s w
  end.

Definition AsyncSequence_chain (op : Chain) (s : AsyncSequence) (w : World)
  : World * Completion (option Facade) :=
  match op with
  | ChainMap mapper => (w, AsyncSequence_map mapper s)
  | ChainFilter predicate => (w, AsyncSequence_filter predicate s)
  | ChainFind predicate => (w, AsyncSequence_find predicate s)
  | ChainFirst => (w, AsyncSequence_first s)
  | ChainLast => (w, AsyncSequence_last s)
  | ChainTake count => AsyncSequence_take count s w
  | ChainTakeWhile predicate => (w, AsyncSequence_takeWhile predicate s)
  | ChainScan reducer => AsyncSequence_scan reducer s w
  | ChainReduce reducer => AsyncSequence_reduce reducer s w
  end.

(** The source and the transducer of a facade of either kind. *)
Definition Facade_iterable (f : Facade) : JsValue :=
  match f with
  | IsSequence s => Sequence_iterable s
  | IsAsyncSequence s => AsyncSequence_iterable s
  end.

Definition Facade_transducer (f : Facade) : Transducer :=
  match f with
  | IsSequence s => Sequence_transducer s
  | IsAsyncSequence s => AsyncSequence_transducer s
  end.

(** What a chaining call makes of a transducer and of the store: the
    stages the transducer had, then new ones; the fields the store had,
    then new ones; and no pull. *)
Definition extends (t t' : Transducer) (w w' : World) : Prop :=
  (exists stages, stages <> [] /\ decompose t' = decompose t ++ stages) /\
  (exists allocated, fields w' = fields w ++ allocated) /\
  pulls w' = pulls w.

(** The store with one more field, as [alloc] makes it. *)
Definition grown (w : World) (v : value) : World :=
  {| fields := fields w ++ [v]; pulls := pulls w |}.

(** Every field that the transducer [t], or the generator objects of the
    iterable [it], refer to is among the first [n] of the store. *)
Fixpoint stages_below (n : nat) (t : Transducer) : bool :=
  match t with
  | CompositeTransducer a b => stages_below n a && stages_below n b
  | ScanTransducer _ c => (c <? n)%nat
  | TakeTransducer c => (c <? n)%nat
  | _ => true
  end.

Fixpoint cells_below (n : nat) (it : Iterable) {struct it} : bool :=
  let state_below (st : ForOf Iterable) :=
    match st with
    | SuspendedStart i => cells_below n i
    | SuspendedYield i => cells_below n i
    | Completed => true
    end in
  match it with
  | YieldStar inner => cells_below n inner
  | FirstSync st => state_below st
  | LastSync st => state_below st
  | MapSync _ st => state_below st
  | FilterSync _ st => state_below st
  | TakeWhileSync _ st => state_below st
  | ScanSync _ c st => (c <? n)%nat && state_below st
  | TakeSync c st => (c <? n)%nat && state_below st
  | _ => true
  end.

(** A facade whose transducer objects and source refer to fields of the
    store [w] only. *)
Definition Sequence_within (w : World) (s : Sequence) : bool :=
  stages_below (length (fields w)) (Sequence_transducer s) &&
  match Sequence_iterable s with
  | JsObject {| symbolIterator := Some i |} => cells_below (length (fields w)) i
  | _ => true
  end.

(** A synchronous iterator and an asynchronous one that stand at the same
    point of the same pipeline over the same remaining elements. *)
Inductive mirrors : Iterable -> AsyncIterable -> Prop :=
| mirrors_source (rest : list value) : mirrors (ArrayIterator rest) (AsyncSource rest)
| mirrors_first (st : ForOf Iterable) (st' : ForOf AsyncIterable) :
    mirrors_state st st' -> mirrors (FirstSync st) (FirstAsync st')
| mirrors_last (st : ForOf Iterable) (st' : ForOf AsyncIterable) :
    mirrors_state st st' -> mirrors (LastSync st) (LastAsync st')
| mirrors_map (m : Mapper) (st : ForOf Iterable) (st' : ForOf AsyncIterable) :
    mirrors_state st st' -> mirrors (MapSync m st) (MapAsync m st')
| mirrors_filter (p : Predicate) (st : ForOf Iterable) (st' : ForOf AsyncIterable) :
    mirrors_state st st' -> mirrors (FilterSync p st) (FilterAsync p st')
| mirrors_scan (r : Reducer.t) (c : loc) (st : ForOf Iterable) (st' : ForOf AsyncIterable) :
    mirrors_state st st' -> mirrors (ScanSync r c st) (ScanAsync r c st')
| mirrors_take (c : loc) (st : ForOf Iterable) (st' : ForOf AsyncIterable) :
    mirrors_state st st' -> mirrors (TakeSync c st) (TakeAsync c st')
| mirrors_takeWhile (p : Predicate) (st : ForOf Iterable) (st' : ForOf AsyncIterable) :
    mirrors_state st st' -> mirrors (TakeWhileSync p st) (TakeWhileAsync p st')
with mirrors_state : ForOf Iterable -> ForOf AsyncIterable -> Prop :=
| mirrors_start (i : Iterable) (i' : AsyncIterable) :
    mirrors (GetIterator i) i' -> mirrors_state (SuspendedStart i) (SuspendedStart i')
| mirrors_yield (i : Iterable) (i' : AsyncIterable) :
    mirrors i i' -> mirrors_state (SuspendedYield i) (SuspendedYield i')
| mirrors_completed : mirrors_state Completed Completed.

(** Two steps that went the same way. *)
Definition same_step {R : Type}
  (x : option (World * Iterable * R)) (y : option (World * AsyncIterable * R)) : Prop :=
  match x, y with
  | Some (w1, it1, r1), Some (w2, it2, r2) => w1 = w2 /\ r1 = r2 /\ mirrors it1 it2
  | None, None => True
  | _, _ => False
  end.

(** A chain of calls made on a facade over the array [xs], and the same
    chain made on a facade over an asynchronous source of the same
    elements; [None] when a call gives no facade of the kind. *)
Fixpoint Sequence_pipeline (ops : list Chain) (s : Sequence) (w : World)
  : option (World * Sequence) :=
  match ops with
  | [] => Some (w, s)
  | op :: ops' =>
      match Sequence_chain op s w with
      | (w', Returned (Some (IsSequence s'))) => Sequence_pipeline ops' s' w'
      | _ => None
      end
  end.

Fixpoint AsyncSequence_pipeline (ops : list Chain) (s : AsyncSequence) (w : World)
  : option (World * AsyncSequence) :=
  match ops with
  | [] => Some (w, s)
  | op :: ops' =>
      match AsyncSequence_chain op s w with
      | (w', Returned (Some (IsAsyncSequence s'))) => AsyncSequence_pipeline ops' s' w'
      | _ => None
      end
  end.

(** ** What the further facts are stated with *)

(** What the first [k] calls of [next] on an iterator give: the elements up
    to the call that finds the iterator done, if one of the [k] does. *)
Fixpoint pulls_of (k fuel : nat) (w : World) (it : Iterable) : option (World * list value) :=
  match k with
  | O => Some (w, [])
  | S k =>
      match next fuel w it with
      | None => None
      | Some (w', it', Yield a) =>
          match pulls_of k fuel w' it' with
          | Some (w'', l) => Some (w'', a :: l)
          | None => None
          end
      | Some (w', _, Done) => Some (w', [])
      end
  end.

(** The store after [k] more calls of [next] on source iterators. *)
Definition pulled_times (k : nat) (w : World) : World :=
  {| fields := fields w; pulls := (pulls w + k)%nat |}.

(** The longest prefix of [xs] whose elements all pass [p]. *)
Fixpoint prefix_while (p : Predicate) (xs : list value) : list value :=
  match xs with
  | [] => []
  | a :: xs' => if p a then a :: prefix_while p xs' else []
  end.

(** [seed], [g seed], [g (g seed)], ...: [n] of them. *)
Definition orbit (g : value -> value) (seed : value) (n : nat) : list value :=
  List.map (fun k => Nat.iter k g seed) (seq 0 n).

(** A transducer without [ScanTransducer] and [TakeTransducer] stages, and
    an iterable without their generator objects: they have no field. *)
Fixpoint stateless_stages (t : Transducer) : bool :=
  match t with
  | CompositeTransducer a b => stateless_stages a && stateless_stages b
  | ScanTransducer _ _ => false
  | TakeTransducer _ => false
  | _ => true
  end.

Fixpoint stateless (it : Iterable) {struct it} : bool :=
  let state_stateless (st : ForOf Iterable) :=
    match st with
    | SuspendedStart i => stateless i
    | SuspendedYield i => stateless i
    | Completed => true
    end in
  match it with
  | YieldStar inner => stateless inner
  | FirstSync st => state_stateless st
  | LastSync st => state_stateless st
  | MapSync _ st => state_stateless st
  | FilterSync _ st => state_stateless st
  | TakeWhileSync _ st => state_stateless st
  | ScanSync _ _ _ => false
  | TakeSync _ _ => false
  | _ => true
  end.

(** Whether a transducer is a [CompositeTransducer]. *)
Definition is_composite (t : Transducer) : bool :=
  match t with
  | CompositeTransducer _ _ => true
  | _ => false
  end.

(** [src/dates/generators.ts] *)
Module Generators.

(** The loop of [range]: [for (let i = start; i <= end; i++) result.push(i)],
    from the given [i] and [result] on; [None] when [fuel] turns of the loop
    do not end it.  [i++] is the exact [i + 1], as the code computes it while
    [i] is a safe integer. *)
Fixpoint range_loop (fuel : nat) (i end_ : Z) (result : list Z) : option (list Z) :=
  match fuel with
  | O => None
  | S fuel =>
      if i <=? end_
      then range_loop fuel (i + 1) end_ (result ++ [i])
      else Some result
  end.

(** [range(start, end)], the version without dependencies. *)
Definition range (fuel : nat) (start end_ : Z) : option (list Z) :=
  range_loop fuel start end_ [].

End Generators.

(** ** The store *)

Lemma read_write (w : World) (l : loc) (v : value) :
  (l < length (fields w))%nat -> read (write w l v) l = v.
Proof.
  intros Hl. unfold read, write. simpl.
  rewrite list_lookup_insert_eq; auto.
Qed.

Lemma write_write (w : World) (l : loc) (v v' : value) :
  write (write w l v) l v' = write w l v'.
Proof.
  unfold write. simpl. f_equal. apply list_insert_insert_eq.
Qed.

Lemma read_alloc (w : World) (v : value) :
  read (fst (alloc w v)) (snd (alloc w v)) = v.
Proof.
  unfold read, alloc. simpl.
  rewrite lookup_app_r by lia.
  replace (length (fields w) - length (fields w))%nat with 0%nat by lia.
  reflexivity.
Qed.

Lemma insert_read (w : World) (l : loc) :
  (l < length (fields w))%nat -> <[l := read w l]> (fields w) = fields w.
Proof.
  intros Hl. unfold read.
  destruct (lookup_lt_is_Some_2 (fields w) l Hl) as [v Hv].
  rewrite Hv. apply list_insert_id. exact Hv.
Qed.

Lemma read_grown (w : World) (v : value) (c : loc) :
  (c < length (fields w))%nat -> read (grown w v) c = read w c.
Proof.
  intros Hc. unfold read, grown. simpl. rewrite lookup_app_l by exact Hc. reflexivity.
Qed.

Lemma write_grown (w : World) (v x : value) (c : loc) :
  (c < length (fields w))%nat -> write (grown w v) c x = grown (write w c x) v.
Proof.
  intros Hc. unfold write, grown. simpl. rewrite insert_app_l by exact Hc. reflexivity.
Qed.

Lemma read_grown_new (w : World) (v : value) :
  read (grown w v) (length (fields w)) = v.
Proof. exact (read_alloc w v). Qed.

Lemma write_grown_new (w : World) (v x : value) :
  write (grown w v) (length (fields w)) x = grown w x.
Proof.
  unfold write, grown. simpl. f_equal.
  rewrite insert_app_r_alt by lia.
  replace (length (fields w) - length (fields w))%nat with 0%nat by lia. reflexivity.
Qed.

Lemma js_is_zero_Num (z : Z) : js_is_zero (Num z) = (z =? 0).
Proof. destruct z; reflexivity. Qed.

(** ** One call of [next], of [spread] and of the loops *)

Lemma next_ArrayIterator (fuel : nat) (w : World) (rest : list value) :
  next (S fuel) w (ArrayIterator rest) =
  match rest with
  | [] => Some (pulled w, ArrayIterator [], Done)
  | a :: rest' => Some (pulled w, ArrayIterator rest', Yield a)
  end.
Proof. reflexivity. Qed.

Lemma next_TakeSync_start (fuel : nat) (w : World) (c : loc) (i : Iterable) :
  next (S fuel) w (TakeSync c (SuspendedStart i)) =
  if js_is_zero (read w c)
  then Some (w, TakeSync c Completed, Done)
  else
    match next fuel w (GetIterator i) with
    | None => None
    | Some (w', it', Yield a) => Some (w', TakeSync c (SuspendedYield it'), Yield a)
    | Some (w', _, Done) => Some (w', TakeSync c Completed, Done)
    end.
Proof. reflexivity. Qed.

Lemma next_TakeSync_yield (fuel : nat) (w : World) (c : loc) (it : Iterable) :
  next (S fuel) w (TakeSync c (SuspendedYield it)) =
  if js_is_zero (js_decrement (read w c))
  then Some (write w c (js_decrement (read w c)), TakeSync c Completed, Done)
  else
    match next fuel (write w c (js_decrement (read w c))) it with
    | None => None
    | Some (w', it', Yield a) => Some (w', TakeSync c (SuspendedYield it'), Yield a)
    | Some (w', _, Done) => Some (w', TakeSync c Completed, Done)
    end.
Proof. reflexivity. Qed.

Lemma next_ScanSync (fuel : nat) (w : World) (r : Reducer.t) (c : loc) (st : ForOf Iterable) :
  next (S fuel) w (ScanSync r c st) =
  match loop_iterator st with
  | None => Some (w, ScanSync r c Completed, Done)
  | Some it =>
      match next fuel w it with
      | None => None
      | Some (w', it', Yield a) =>
          Some (write w' c (Reducer.call r (read w' c) a),
                ScanSync r c (SuspendedYield it'),
                Yield (Reducer.call r (read w' c) a))
      | Some (w', _, Done) => Some (w', ScanSync r c Completed, Done)
      end
  end.
Proof. reflexivity. Qed.

Lemma next_LastSync_start (fuel : nat) (w : World) (i : Iterable) :
  next (S fuel) w (LastSync (SuspendedStart i)) =
  match for_last fuel w (GetIterator i) Undefined with
  | None => None
  | Some (w', it', last) =>
      if js_defined last
      then Some (w', LastSync (SuspendedYield it'), Yield last)
      else Some (w', LastSync Completed, Done)
  end.
Proof. reflexivity. Qed.

Lemma next_YieldStar (fuel : nat) (w : World) (inner : Iterable) :
  next (S fuel) w (YieldStar inner) =
  match next fuel w inner with
  | None => None
  | Some (w', inner', Yield a) => Some (w', YieldStar inner', Yield a)
  | Some (w', _, Done) => Some (w', CompletedGenerator, Done)
  end.
Proof. reflexivity. Qed.

Lemma next_TakeWhileSync (fuel : nat) (w : World) (p : Predicate) (st : ForOf Iterable) :
  next (S fuel) w (TakeWhileSync p st) =
  match loop_iterator st with
  | None => Some (w, TakeWhileSync p Completed, Done)
  | Some it =>
      match next fuel w it with
      | None => None
      | Some (w', it', Yield a) =>
          if p a
          then Some (w', TakeWhileSync p (SuspendedYield it'), Yield a)
          else Some (w', TakeWhileSync p Completed, Done)
      | Some (w', _, Done) => Some (w', TakeWhileSync p Completed, Done)
      end
  end.
Proof. reflexivity. Qed.

Lemma next_IterateGenerator (fuel : nat) (w : World) (g : value -> value) (v : value)
  (started : bool) :
  next (S fuel) w (IterateGenerator g v started) =
  Some (pulled w, IterateGenerator g (if started then g v else v) true,
        Yield (if started then g v else v)).
Proof. reflexivity. Qed.

Lemma next_RangeGenerator (fuel : nat) (w : World) (start : Z) (e : option Z) (step : Z) :
  next (S fuel) w (RangeGenerator start e step) =
  match range_delegate start e step with
  | Some s =>
      match Sequence_symbolIterator s with
      | Some inner => next fuel w (YieldStar inner)
      | None => None
      end
  | None => None
  end.
Proof. reflexivity. Qed.

Lemma for_last_S (fuel : nat) (w : World) (it : Iterable) (l : value) :
  for_last (S fuel) w it l =
  match next fuel w it with
  | None => None
  | Some (w', it', Yield a) => for_last fuel w' it' a
  | Some (w', it', Done) => Some (w', it', l)
  end.
Proof. reflexivity. Qed.

Lemma spread_S (fuel : nat) (w : World) (it : Iterable) :
  spread (S fuel) w it =
  match next fuel w it with
  | None => None
  | Some (w', it', Yield a) =>
      match spread fuel w' it' with
      | Some (w'', l) => Some (w'', a :: l)
      | None => None
      end
  | Some (w', _, Done) => Some (w', [])
  end.
Proof. reflexivity. Qed.

Lemma consume_times_S (k fuel : nat) (w : World) (s : Sequence) :
  consume_times (S k) fuel w s =
  match syncArray fuel w s with
  | Some (w', l) =>
      match consume_times k fuel w' s with
      | Some (w'', ls) => Some (w'', l :: ls)
      | None => None
      end
  | None => None
  end.
Proof. reflexivity. Qed.

(** ** More fuel changes no result *)

Ltac grow_call IH fuel fuel' :=
  match goal with
  | H : context [next fuel ?w ?i] |- _ =>
      let E := fresh "E" in
      destruct (next fuel w i) as [[[? ?] [?|]]|] eqn:E;
      [ apply (proj1 IH fuel') in E; [rewrite E | lia] ..
      | discriminate ]
  | H : context [for_last fuel ?w ?i ?l] |- _ =>
      let E := fresh "E" in
      destruct (for_last fuel w i l) as [[[? ?] ?]|] eqn:E;
      [ apply (proj2 IH fuel') in E; [rewrite E | lia]
      | discriminate ]
  end.

Lemma next_for_last_mono (fuel : nat) :
  (forall (fuel' : nat) (w : World) (it : Iterable) r,
      (fuel <= fuel')%nat -> next fuel w it = Some r -> next fuel' w it = Some r) /\
  (forall (fuel' : nat) (w : World) (it : Iterable) (l : value) r,
      (fuel <= fuel')%nat -> for_last fuel w it l = Some r ->
      for_last fuel' w it l = Some r).
Proof.
  induction fuel as [|fuel IH]; [split; intros; discriminate|].
  split.
  - intros fuel' w it r Hle H.
    destruct fuel' as [|fuel']; [lia|].
    assert (Hle' : (fuel <= fuel')%nat) by lia.
    destruct it as [xs|rest|t|g v b|start e step|inner| |st|st|m st|p st|rd c st|c st|p st];
      try (destruct st as [i|i|]); simpl in H |- *;
      try exact H;
      try (destruct (range_delegate start e step) as [sq|]; [|discriminate];
           destruct (Sequence_symbolIterator sq) as [inn|]; [|discriminate]);
      try (destruct (js_is_zero _); [exact H|]);
      try (apply (proj1 IH fuel'); [lia | exact H]);
      repeat grow_call IH fuel fuel';
      try exact H;
      try (destruct (p _); [exact H | apply (proj1 IH fuel'); [lia | exact H]]).
  - intros fuel' w it l r Hle H.
    destruct fuel' as [|fuel']; [lia|].
    simpl in H |- *.
    grow_call IH fuel fuel'; try exact H.
    apply (proj2 IH fuel'); [lia | exact H].
Qed.

Lemma next_mono (fuel fuel' : nat) (w : World) (it : Iterable) r :
  (fuel <= fuel')%nat -> next fuel w it = Some r -> next fuel' w it = Some r.
Proof. apply next_for_last_mono. Qed.

Lemma for_last_mono (fuel fuel' : nat) (w : World) (it : Iterable) (l : value) r :
  (fuel <= fuel')%nat -> for_last fuel w it l = Some r -> for_last fuel' w it l = Some r.
Proof. apply next_for_last_mono. Qed.

Lemma spread_mono (fuel : nat) :
  forall (fuel' : nat) (w : World) (it : Iterable) r,
    (fuel <= fuel')%nat -> spread fuel w it = Some r -> spread fuel' w it = Some r.
Proof.
  induction fuel as [|fuel IH]; intros fuel' w it r Hle H; [discriminate|].
  destruct fuel' as [|fuel']; [lia|].
  simpl in H |- *.
  destruct (next fuel w it) as [[[w1 it1] [a|]]|] eqn:E; try discriminate;
    rewrite (next_mono fuel fuel' _ _ _ ltac:(lia) E); [|exact H].
  destruct (spread fuel w1 it1) as [[w2 l]|] eqn:E2; try discriminate.
  rewrite (IH fuel' w1 it1 _ ltac:(lia) E2). exact H.
Qed.

Lemma syncArray_mono (fuel fuel' : nat) (w : World) (s : Sequence) r :
  (fuel <= fuel')%nat -> syncArray fuel w s = Some r -> syncArray fuel' w s = Some r.
Proof.
  unfold syncArray. destruct (Sequence_symbolIterator s); [|discriminate].
  apply spread_mono.
Qed.

(** ** The factory on sources with a protocol *)

(** The two branches of the factory probe alike. *)
Lemma sequence_probes (v : JsValue) (t : option Transducer) :
  sequence v t =
  match isIterable (probed v) with
  | ThrewTypeError => ThrewTypeError
  | Returned true => Returned (Some (IsSequence (Sequence_of (probed v) t)))
  | Returned false =>
      match isAsyncIterable (probed v) with
      | ThrewTypeError => ThrewTypeError
      | Returned true => Returned (Some (IsAsyncSequence (AsyncSequence_of (probed v) t)))
      | Returned false => Returned None
      end
  end.
Proof. unfold sequence, probed. destruct t; reflexivity. Qed.

(** A source that passes [isIterable] is an object with a [Symbol.iterator];
    the factory then builds a [Sequence] over it with the transducer given. *)
Lemma isIterable_true (v : JsValue) :
  isIterable v = Returned true ->
  exists o i, v = JsObject o /\ symbolIterator o = Some i.
Proof.
  destruct v as [| |o]; simpl; try discriminate.
  intros H. injection H as H. apply bool_decide_eq_true in H.
  destruct (symbolIterator o) as [i|] eqn:E; [|congruence].
  exists o, i. auto.
Qed.

Lemma isAsyncIterable_true (v : JsValue) :
  isAsyncIterable v = Returned true ->
  exists o i, v = JsObject o /\ symbolAsyncIterator o = Some i.
Proof.
  destruct v as [| |o]; simpl; try discriminate.
  intros H. injection H as H. apply bool_decide_eq_true in H.
  destruct (symbolAsyncIterator o) as [i|] eqn:E; [|congruence].
  exists o, i. auto.
Qed.

Lemma sequence_of_iterable (v : JsValue) (t : option Transducer) :
  isIterable v = Returned true ->
  sequence v t = Returned (Some (IsSequence (Sequence_of v t))).
Proof.
  intros H. destruct (isIterable_true v H) as (o & i & -> & Hi).
  rewrite sequence_probes. simpl probed. rewrite H. reflexivity.
Qed.

Lemma sequence_array (xs : list value) (t : option Transducer) :
  sequence (array xs) t = Returned (Some (IsSequence (Sequence_of (array xs) t))).
Proof. destruct t; reflexivity. Qed.

(** Over a source with one of the protocols, the factory gives a facade of
    that source and of the transducer it was handed. *)
Lemma sequence_of_source (v : JsValue) (t : Transducer) :
  isIterable v = Returned true \/ isAsyncIterable v = Returned true ->
  exists f : Facade,
    sequence v (Some t) = Returned (Some f) /\
    Facade_iterable f = v /\ Facade_transducer f = t.
Proof.
  intros [H|H].
  - rewrite (sequence_of_iterable v _ H). eexists. split; [reflexivity|]. split; reflexivity.
  - destruct (isAsyncIterable_true v H) as (o & i & -> & Hi).
    unfold sequence. simpl isIterable. rewrite H.
    destruct (bool_decide (symbolIterator o <> None));
      eexists; (split; [reflexivity|]); split; reflexivity.
Qed.

Lemma symbolIterator_of_generator (g : Iterable) (t : Transducer) :
  Sequence_symbolIterator (Sequence_of (generator_object g) (Some t)) =
  Some (GetIterator (sync t g)).
Proof. reflexivity. Qed.

(** ** A field that no stage refers to *)

Lemma cells_below_GetIterator (n : nat) (i : Iterable) :
  cells_below n (GetIterator i) = cells_below n i.
Proof. destruct i; reflexivity. Qed.

Lemma cells_below_sync (n : nat) (t : Transducer) :
  forall i : Iterable,
    stages_below n t = true -> cells_below n i = true -> cells_below n (sync t i) = true.
Proof.
  induction t as [| | |m|p|a IHa b IHb|r c|c|p]; intros i Ht Hi; simpl in *; auto.
  - apply andb_true_iff in Ht as [Ha Hb]. auto.
  - rewrite Ht, Hi. reflexivity.
  - rewrite Ht, Hi. reflexivity.
Qed.

Lemma range_delegate_bounded (start e step : Z) :
  range_delegate start (Some e) step =
  Some (if e <? start
        then Sequence_of
               (generator_object
                  (IterateGenerator (subtract (Num (Z.abs step))) (Num start) false))
               (Some (takeWhile (fun n => js_ge n (Num e)) identity))
        else Sequence_of
               (generator_object
                  (IterateGenerator (add (Num (Z.abs step))) (Num start) false))
               (Some (takeWhile (fun n => js_le n (Num e)) identity))).
Proof. unfold range_delegate. destruct (e <? start); reflexivity. Qed.

Lemma cells_below_range_delegate (n : nat) (start : Z) (e : option Z) (step : Z) :
  forall (s : Sequence) (inner : Iterable),
    range_delegate start e step = Some s ->
    Sequence_symbolIterator s = Some inner ->
    cells_below n inner = true.
Proof.
  intros s inner Hs Hi. destruct e as [e|].
  - rewrite range_delegate_bounded in Hs. injection Hs as <-.
    destruct (e <? start); injection Hi as <-; reflexivity.
  - injection Hs as <-. injection Hi as <-. reflexivity.
Qed.

Ltac frame_call IH fuel :=
  match goal with
  | H : context [next fuel ?w0 ?i] |- _ =>
      let E := fresh "E" in
      let Hl := fresh "Hl" in
      let Hb := fresh "Hb" in
      let Hf := fresh "Hf" in
      destruct (next fuel w0 i) as [[[? ?] [?|]]|] eqn:E; [| |discriminate H];
      (destruct (proj1 IH _ _ _ _ _ E) as (Hl & Hb & Hf);
       [ rewrite ?cells_below_GetIterator; simpl; rewrite ?length_insert; assumption | ])
  | H : context [for_last fuel ?w0 ?i ?l] |- _ =>
      let E := fresh "E" in
      let Hl := fresh "Hl" in
      let Hb := fresh "Hb" in
      let Hf := fresh "Hf" in
      destruct (for_last fuel w0 i l) as [[[? ?] ?]|] eqn:E; [|discriminate H];
      (destruct (proj2 IH _ _ _ _ _ _ E) as (Hl & Hb & Hf);
       [ rewrite ?cells_below_GetIterator; simpl; rewrite ?length_insert; assumption | ])
  end.

Ltac frame_done :=
  match goal with
  | H : Some _ = Some _ |- _ => injection H as <- <- <-
  end;
  repeat match goal with
    | H : (_ <? _)%nat = true |- _ => apply Nat.ltb_lt in H
    end;
  simpl;
  rewrite ?read_grown by lia;
  rewrite ?write_grown by lia;
  try match goal with
    | Hf : next _ (grown _ _) _ = Some _ |- _ => rewrite Hf
    | Hf : for_last _ (grown _ _) _ _ = Some _ |- _ => rewrite Hf
    end;
  rewrite ?read_grown by lia;
  rewrite ?write_grown by lia;
  (split; [|split]);
  [ rewrite ?length_insert; first [reflexivity | assumption | lia]
  | first [ reflexivity | assumption
          | apply andb_true_iff; split;
            [apply Nat.ltb_lt; lia | first [assumption | reflexivity]] ]
  | try reflexivity ].

(** A call of [next] neither reads nor writes a field that its iterator
    does not refer to: it goes the same way in a store with one more field,
    and leaves that field as it was. *)
Lemma next_for_last_frame (v : value) (fuel : nat) :
  (forall (w : World) (it : Iterable) (w' : World) (it' : Iterable) (r : IteratorResult),
      next fuel w it = Some (w', it', r) ->
      cells_below (length (fields w)) it = true ->
      length (fields w') = length (fields w) /\
      cells_below (length (fields w)) it' = true /\
      next fuel (grown w v) it = Some (grown w' v, it', r)) /\
  (forall (w : World) (it : Iterable) (l : value) (w' : World) (it' : Iterable) (l' : value),
      for_last fuel w it l = Some (w', it', l') ->
      cells_below (length (fields w)) it = true ->
      length (fields w') = length (fields w) /\
      cells_below (length (fields w)) it' = true /\
      for_last fuel (grown w v) it l = Some (grown w' v, it', l')).
Proof.
  induction fuel as [|fuel IH]; [split; intros; discriminate|].
  split.
  - intros w it w' it' r H Hwf.
    destruct it as [xs|rest|t|g x b|start e step|inner| |st|st|m st|p st|rd c st|c st|p st];
      try (destruct st as [i|i|]); simpl in H, Hwf; 
      try (apply andb_true_iff in Hwf as [Hc Hwf]).
    all: try discriminate H.
    all: try (destruct rest; frame_done; fail).
    all: try (frame_done; fail).
    all: try (frame_call IH fuel; frame_done; fail).
    all: try (frame_call IH fuel;
              [ match goal with
                | H : context [if ?b then _ else _] |- _ => destruct b eqn:Ep
                end; frame_done; rewrite ?Ep; reflexivity
              | frame_done ]; fail).
    all: try (destruct (js_is_zero _) eqn:Ez in H;
              [ frame_done; rewrite ?read_grown, ?Ez by lia; reflexivity
              | frame_call IH fuel; frame_done;
                rewrite ?read_grown, ?Ez by lia; rewrite ?Hf; reflexivity ]; fail).
    + (* range *)
      destruct (range_delegate start e step) as [s|] eqn:Er; [|discriminate H].
      destruct (Sequence_symbolIterator s) as [inner|] eqn:Ei; [|discriminate H].
      destruct (proj1 IH _ _ _ _ _ H) as (Hl & Hb & Hf).
      { simpl. exact (cells_below_range_delegate _ _ _ _ _ _ Er Ei). }
      simpl. rewrite Er, Ei. auto.
    + (* last *)
      frame_call IH fuel.
      destruct (js_defined _) eqn:Ed in H; frame_done; rewrite Ed; reflexivity.
    + (* filter, from its start *)
      frame_call IH fuel; [|frame_done].
      destruct (p _) eqn:Ep in H; [frame_done; rewrite Ep; reflexivity|].
      destruct (proj1 IH _ _ _ _ _ H) as (Hl2 & Hb2 & Hf2).
      { simpl. rewrite Hl. exact Hb. }
      simpl. rewrite Hf, Ep, Hf2. rewrite Hl in Hl2, Hb2. auto.
    + (* filter, resumed *)
      frame_call IH fuel; [|frame_done].
      destruct (p _) eqn:Ep in H; [frame_done; rewrite Ep; reflexivity|].
      destruct (proj1 IH _ _ _ _ _ H) as (Hl2 & Hb2 & Hf2).
      { simpl. rewrite Hl. exact Hb. }
      simpl. rewrite Hf, Ep, Hf2. rewrite Hl in Hl2, Hb2. auto.
    + (* take, resumed *)
      apply Nat.ltb_lt in Hc.
      destruct (js_is_zero _) eqn:Ez in H.
      * injection H as <- <- <-. simpl.
        rewrite read_grown, Ez, write_grown by lia.
        simpl. rewrite length_insert, andb_true_r.
        split; [reflexivity|]. split; [apply Nat.ltb_lt; exact Hc | reflexivity].
      * frame_call IH fuel;
          injection H as <- <- <-; simpl in Hl, Hb; rewrite length_insert in Hl, Hb;
          simpl; rewrite read_grown, Ez, write_grown by lia; rewrite Hf;
          (split; [exact Hl|]); (split; [|reflexivity]);
          rewrite ?Hb; simpl; rewrite ?andb_true_r; try apply Nat.ltb_lt; try lia.
  - intros w it l w' it' l' H Hwf. simpl in H.
    frame_call IH fuel.
    + destruct (proj2 IH _ _ _ _ _ _ H) as (Hl2 & Hb2 & Hf2).
      { rewrite Hl. exact Hb. }
      simpl. rewrite Hf, Hf2. rewrite Hl in Hl2, Hb2. auto.
    + injection H as <- <- <-. simpl. rewrite Hf. auto.
Qed.

(** ** The two execution modes of a transducer *)

Ltac lock_call IH fuel :=
  match goal with
  | Hm : mirrors ?i ?a |- context [next fuel ?w ?i] =>
      let L := fresh "L" in
      pose proof (proj1 IH w i a Hm) as L; unfold same_step in L;
      destruct (next fuel w i) as [[[? ?] [?|]]|];
      destruct (async_next fuel w a) as [[[? ?] [?|]]|];
      try contradiction;
      try (destruct L as (<- & L & ?); try discriminate L; try injection L as <-)
  | Hm : mirrors ?i ?a |- context [for_last fuel ?w ?i ?l] =>
      let L := fresh "L" in
      pose proof (proj2 IH w i a l Hm) as L; unfold same_step in L;
      destruct (for_last fuel w i l) as [[[? ?] ?]|];
      destruct (for_await_last fuel w a l) as [[[? ?] ?]|];
      try contradiction;
      try (destruct L as (<- & <- & ?))
  end.

Ltac lock_done :=
  unfold same_step;
  repeat match goal with
    | |- context [if ?b then _ else _] => destruct b
    end;
  try exact I;
  try (split; [reflexivity|]; split; [reflexivity|]);
  repeat constructor; try assumption.

(** Resumed in the same store, mirrored iterators take the same step. *)
Lemma lockstep (fuel : nat) :
  (forall (w : World) (it : Iterable) (ait : AsyncIterable),
      mirrors it ait -> same_step (next fuel w it) (async_next fuel w ait)) /\
  (forall (w : World) (it : Iterable) (ait : AsyncIterable) (l : value),
      mirrors it ait -> same_step (for_last fuel w it l) (for_await_last fuel w ait l)).
Proof.
  induction fuel as [|fuel IH]; [split; intros; exact I|].
  split.
  - intros w it ait Hm.
    destruct Hm as [rest|st st' Hs|st st' Hs|m st st' Hs|p st st' Hs|r c st st' Hs
                   |c st st' Hs|p st st' Hs];
      try (destruct Hs as [i i' Hm|i i' Hm|]); simpl.
    all: try (destruct rest; lock_done; fail).
    all: try (lock_done; fail).
    all: try (lock_call IH fuel; lock_done; fail).
    all: try (destruct (js_is_zero _); [lock_done | lock_call IH fuel; lock_done]; fail).
    all: lock_call IH fuel; try (lock_done; fail);
      (destruct (p _);
       [ lock_done | apply (proj1 IH); apply mirrors_filter, mirrors_yield; assumption ]).
  - intros w it ait l Hm. simpl.
    lock_call IH fuel; try (lock_done; fail).
    apply (proj2 IH). assumption.
Qed.

Lemma spread_lockstep (fuel : nat) :
  forall (w : World) (it : Iterable) (ait : AsyncIterable),
    mirrors it ait -> spread fuel w it = for_await_push fuel w ait.
Proof.
  induction fuel as [|fuel IH]; intros w it ait Hm; [reflexivity|].
  simpl. pose proof (proj1 (lockstep fuel) w it ait Hm) as L. unfold same_step in L.
  destruct (next fuel w it) as [[[w1 it1] [a|]]|];
    destruct (async_next fuel w ait) as [[[w2 it2] [b|]]|];
    try contradiction; try reflexivity;
    destruct L as (<- & L & Hm'); try discriminate L; [|reflexivity].
  injection L as <-. rewrite (IH w1 it1 it2 Hm'). reflexivity.
Qed.

Lemma mirrors_sync (t : Transducer) :
  forall (i : Iterable) (a : AsyncIterable),
    mirrors (GetIterator i) a -> mirrors (GetIterator (sync t i)) (async_ t a).
Proof.
  induction t as [| | |m|p|t1 IH1 t2 IH2|r c|c|p]; intros i a Hm; simpl;
    try (constructor; constructor; exact Hm).
  - exact Hm.
  - apply IH2, IH1, Hm.
Qed.

(** One transducer, driven by [sync] over an array and by [async_] over an
    asynchronous source of the same elements, from the same store: the two
    consumptions end alike, with the same elements and the same store, or
    both want more fuel. *)
Lemma sync_and_async_agree (t : Transducer) (xs : list value) (w : World) (fuel : nat) :
  syncArray fuel w (Sequence_of (array xs) (Some t)) =
  asyncArray fuel w (AsyncSequence_of (async_source xs) (Some t)).
Proof.
  unfold syncArray, asyncArray. simpl.
  apply spread_lockstep. apply (mirrors_sync t (ArrayIterable xs)). constructor.
Qed.

Lemma consume_times_agree (t : Transducer) (xs : list value) (fuel k : nat) :
  forall w : World,
    async_consume_times k fuel w (AsyncSequence_of (async_source xs) (Some t)) =
    consume_times k fuel w (Sequence_of (array xs) (Some t)).
Proof.
  induction k as [|k IH]; intros w; simpl; [reflexivity|].
  rewrite <- sync_and_async_agree.
  destruct (syncArray fuel w (Sequence_of (array xs) (Some t)))
    as [[w' l]|]; [|reflexivity].
  rewrite IH. reflexivity.
Qed.

(** Every chaining call but [last] composes the same stage, on the same
    store, whichever facade it is made on. *)
Lemma chain_same_stage (op : Chain) (xs : list value) (t : Transducer) (w : World) :
  op <> ChainLast ->
  exists (t' : Transducer) (w' : World),
    Sequence_chain op (Sequence_of (array xs) (Some t)) w =
      (w', Returned (Some (IsSequence (Sequence_of (array xs) (Some t'))))) /\
    AsyncSequence_chain op (AsyncSequence_of (async_source xs) (Some t)) w =
      (w', Returned (Some (IsAsyncSequence (AsyncSequence_of (async_source xs) (Some t'))))).
Proof.
  intros Hop.
  destruct op as [m|p|p| | |n|p|r|r]; try congruence;
    eexists _, _; split; reflexivity.
Qed.

(** A chain of calls without [last], made on the synchronous facade over an
    array and on the asynchronous facade over the same elements: both give a
    facade, and the two facades drain alike. *)
Lemma chains_without_last_agree (ops : list Chain) (xs : list value) :
  ~ In ChainLast ops ->
  forall (t : Transducer) (w : World),
  exists (w' : World) (s' : Sequence) (a' : AsyncSequence),
    Sequence_pipeline ops (Sequence_of (array xs) (Some t)) w = Some (w', s') /\
    AsyncSequence_pipeline ops (AsyncSequence_of (async_source xs) (Some t)) w =
      Some (w', a') /\
    forall fuel : nat, syncArray fuel w' s' = asyncArray fuel w' a'.
Proof.
  induction ops as [|op ops IH]; intros Hin t w.
  - exists w. eexists _, _. split; [reflexivity|]. split; [reflexivity|].
    intros fuel. apply sync_and_async_agree.
  - destruct (chain_same_stage op xs t w) as (t' & w1 & Hs & Ha).
    { intros ->. apply Hin. left. reflexivity. }
    destruct (IH (fun H => Hin (or_intror H)) t' w1) as (w' & s' & a' & Hs' & Ha' & Hd).
    exists w', s', a'. simpl. rewrite Hs, Ha. auto.
Qed.

(** ** Arrays and [LastTransducer] *)

(** Draining the iterator of an array gives the array. *)
Lemma spread_array (xs : list value) :
  forall (w : World) (fuel : nat),
    (length xs + 2 <= fuel)%nat ->
    spread fuel w (ArrayIterator xs) =
    Some ({| fields := fields w; pulls := (pulls w + S (length xs))%nat |}, xs).
Proof.
  induction xs as [|a xs IH]; intros w fuel Hfuel;
    (destruct fuel as [|[|fuel]]; [simpl in Hfuel; lia..|]);
    rewrite spread_S, next_ArrayIterator.
  - unfold pulled. simpl. do 3 f_equal. lia.
  - rewrite IH by (simpl in Hfuel; lia). simpl. do 3 f_equal. lia.
Qed.

Lemma last_cons_default (xs : list value) :
  forall (a d : value), List.last (a :: xs) d = List.last xs a.
Proof.
  induction xs as [|b xs IH]; intros a d; [reflexivity|].
  change (List.last (a :: b :: xs) d) with (List.last (b :: xs) d).
  rewrite (IH b d), (IH b a). reflexivity.
Qed.

(** The loop of [LastTransducer] ends with the last element that draining
    the same iterator gives. *)
Lemma for_last_spread (fuel : nat) :
  forall (w : World) (it : Iterable) (l : value) (w' : World) (xs : list value),
    spread fuel w it = Some (w', xs) ->
    exists it', for_last fuel w it l = Some (w', it', List.last xs l).
Proof.
  induction fuel as [|fuel IH]; intros w it l w' xs H; [discriminate|].
  rewrite spread_S in H. rewrite for_last_S.
  destruct (next fuel w it) as [[[w1 it1] [a|]]|]; try discriminate.
  - destruct (spread fuel w1 it1) as [[w2 xs2]|] eqn:E; try discriminate.
    injection H as <- <-.
    destruct (IH w1 it1 a w2 xs2 E) as [it' Hit']. exists it'.
    rewrite Hit'. f_equal. f_equal.
    symmetry. apply last_cons_default.
  - injection H as <- <-. exists it1. reflexivity.
Qed.

(** [last()] after any stage that can be drained: the one element that is
    the last of the drain, unless there is none or it is [undefined]. *)
Lemma spread_last (fuel : nat) (w : World) (i : Iterable) (w' : World) (xs : list value) :
  spread fuel w (GetIterator i) = Some (w', xs) ->
  spread (S (S fuel)) w (LastSync (SuspendedStart i)) =
  Some (w', if js_defined (List.last xs Undefined) then [List.last xs Undefined] else []).
Proof.
  intros H. destruct (for_last_spread fuel w _ Undefined w' xs H) as [it' Hit'].
  rewrite spread_S, next_LastSync_start, Hit'.
  destruct (js_defined (List.last xs Undefined)); [|reflexivity].
  destruct fuel as [|fuel]; [discriminate|]. reflexivity.
Qed.

(** [LastTransducer] itself: over an array it yields the final element and
    nothing else, after it has pulled the whole array; nothing when the
    array is empty or ends with [undefined]. *)
Lemma LastTransducer_yields_final_element (xs : list value) (w : World) :
  syncArray (length xs + 4) w (Sequence_of (array xs) (Some (last identity))) =
  Some ({| fields := fields w; pulls := (pulls w + S (length xs))%nat |},
        if js_defined (List.last xs Undefined) then [List.last xs Undefined] else []).
Proof.
  unfold syncArray. simpl.
  replace (length xs + 4)%nat with (S (S (length xs + 2))) by lia.
  apply spread_last. simpl. apply spread_array. lia.
Qed.

(** ** C1 and C2: [Sequence.last] *)

(** C1, on the code.  [Sequence.last] composes what [Sequence.first]
    composes, a [FirstTransducer]: over an array [x, ...] its facade drains
    to [[x]] after one pull, so over [[1, 2, 3]] to [[1]] and not to [[3]].
    The transducer [last], which [AsyncSequence.last] composes, drains to
    [[3]] over the same array, after four pulls. *)
Theorem Sequence_last_yields_first_element :
  (forall s : Sequence, Sequence_last s = Sequence_first s) /\
  (forall (x : value) (xs : list value) (w : World),
      exists s' : Sequence,
        Sequence_last (Sequence_of (array (x :: xs)) None) =
          Returned (Some (IsSequence s')) /\
        syncArray 4 w s' = Some (pulled w, [x])) /\
  (forall w : World,
      exists s' : Sequence,
        Sequence_last (Sequence_of (array [Num 1; Num 2; Num 3]) None) =
          Returned (Some (IsSequence s')) /\
        syncArray 4 w s' = Some (pulled w, [Num 1])) /\
  (forall w : World,
      syncArray 7 w (Sequence_of (array [Num 1; Num 2; Num 3]) (Some (last identity))) =
      Some ({| fields := fields w; pulls := (pulls w + 4)%nat |}, [Num 3])).
Proof.
  split; [reflexivity|]. split; [|split].
  - intros x xs w. eexists. split; reflexivity.
  - intros w. eexists. split; reflexivity.
  - intros w. exact (LastTransducer_yields_final_element [Num 1; Num 2; Num 3] w).
Qed.

(** C2, on the code.  The same chain, one call of [last], over the same
    elements [[1, 2, 3]]: the synchronous facade drains to [[1]] after one
    pull, the asynchronous facade to [[3]] after four. *)
Theorem sync_and_async_last_differ (w : World) :
  (exists s' : Sequence,
      Sequence_chain ChainLast (Sequence_of (array [Num 1; Num 2; Num 3]) None) w =
        (w, Returned (Some (IsSequence s'))) /\
      syncArray 7 w s' =
        Some ({| fields := fields w; pulls := (1 + pulls w)%nat |}, [Num 1])) /\
  (exists a' : AsyncSequence,
      AsyncSequence_chain ChainLast
        (AsyncSequence_of (async_source [Num 1; Num 2; Num 3]) None) w =
        (w, Returned (Some (IsAsyncSequence a'))) /\
      asyncArray 7 w a' =
        Some ({| fields := fields w; pulls := (4 + pulls w)%nat |}, [Num 3])).
Proof.
  split; eexists; split; reflexivity.
Qed.

(** ** C3: [take(0)] *)

Lemma next_TakeAsync_start (fuel : nat) (w : World) (c : loc) (i : AsyncIterable) :
  async_next (S fuel) w (TakeAsync c (SuspendedStart i)) =
  if js_is_zero (read w c)
  then Some (w, TakeAsync c Completed, Done)
  else
    match async_next fuel w i with
    | None => None
    | Some (w', it', Yield a) => Some (w', TakeAsync c (SuspendedYield it'), Yield a)
    | Some (w', _, Done) => Some (w', TakeAsync c Completed, Done)
    end.
Proof. reflexivity. Qed.

(** C3.  For every facade over a source with the protocol of its kind, be
    the source finite or not, [take(0)] gives a facade whose consumption
    yields no element and leaves the store as it was: no iterator, of the
    source or of a stage of the facade, has received a call of [next], so
    [pulls] has not moved. *)
Theorem take_zero_no_pull (s : Sequence) (a : AsyncSequence) (w : World) (fuel : nat) :
  isIterable (Sequence_iterable s) = Returned true ->
  isAsyncIterable (AsyncSequence_iterable a) = Returned true ->
  (2 <= fuel)%nat ->
  (exists (s' : Sequence) (w1 : World),
      Sequence_take 0 s w = (w1, Returned (Some (IsSequence s'))) /\
      pulls w1 = pulls w /\
      syncArray fuel w1 s' = Some (w1, [])) /\
  (exists (f : Facade) (w1 : World),
      AsyncSequence_take 0 a w = (w1, Returned (Some f)) /\
      pulls w1 = pulls w /\
      toArray fuel w1 f = Some (w1, [])).
Proof.
  intros Hs Ha Hfuel.
  destruct fuel as [|[|fuel]]; try lia.
  assert (Hr : read (grown w (Num 0)) (length (fields w)) = Num 0)
    by apply read_grown_new.
  split.
  - destruct (isIterable_true _ Hs) as (o & i & Ho & Hi).
    unfold Sequence_take, Transducer_take, take, new_TakeTransducer, alloc.
    rewrite (sequence_of_iterable _ _ Hs).
    eexists _, (grown w (Num 0)). split; [reflexivity|]. split; [reflexivity|].
    unfold syncArray, Sequence_symbolIterator.
    cbn [Sequence_of Sequence_iterable Sequence_transducer].
    rewrite Ho, Hi. cbn [sync compose GetIterator].
    rewrite spread_S, next_TakeSync_start, Hr. reflexivity.
  - destruct (isAsyncIterable_true _ Ha) as (o & ai & Ho & Hi).
    unfold AsyncSequence_take, Transducer_take, take, new_TakeTransducer, alloc.
    rewrite sequence_probes, Ho. cbn [probed isIterable isAsyncIterable].
    rewrite (bool_decide_eq_true_2 (symbolAsyncIterator o <> None)) by congruence.
    destruct (symbolIterator o) as [i|] eqn:Ei.
    + rewrite bool_decide_eq_true_2 by congruence.
      eexists _, (grown w (Num 0)). split; [reflexivity|]. split; [reflexivity|].
      unfold toArray, syncArray, Sequence_symbolIterator.
      cbn [Sequence_of Sequence_iterable Sequence_transducer].
      rewrite Ei. cbn [sync compose GetIterator].
      rewrite spread_S, next_TakeSync_start, Hr. reflexivity.
    + rewrite bool_decide_eq_false_2 by (intros H; apply H; reflexivity).
      eexists _, (grown w (Num 0)). split; [reflexivity|]. split; [reflexivity|].
      unfold toArray, asyncArray, AsyncSequence_symbolAsyncIterator.
      cbn [AsyncSequence_of AsyncSequence_iterable AsyncSequence_transducer].
      rewrite Hi. cbn [async_ compose].
      cbn [for_await_push].
      rewrite next_TakeAsync_start, Hr. reflexivity.
Qed.

Lemma take_zero_no_pull_witness :
  let s := Sequence_of (array [Num 1; Num 2]) None in
  let a := AsyncSequence_of (async_source [Num 1; Num 2]) None in
  isIterable (Sequence_iterable s) = Returned true /\
  isAsyncIterable (AsyncSequence_iterable a) = Returned true /\
  (2 <= 2)%nat /\
  (exists (s' : Sequence) (w1 : World),
      Sequence_take 0 s empty_world = (w1, Returned (Some (IsSequence s'))) /\
      pulls w1 = pulls empty_world /\
      syncArray 2 w1 s' = Some (w1, [])) /\
  (exists (f : Facade) (w1 : World),
      AsyncSequence_take 0 a empty_world = (w1, Returned (Some f)) /\
      pulls w1 = pulls empty_world /\
      toArray 2 w1 f = Some (w1, [])).
Proof.
  intros s a.
  assert (H0 : isIterable (Sequence_iterable s) = Returned true) by reflexivity.
  assert (H1 : isAsyncIterable (AsyncSequence_iterable a) = Returned true) by reflexivity.
  assert (H2 : (2 <= 2)%nat) by lia.
  split; [exact H0|]. split; [exact H1|]. split; [exact H2|].
  exact (take_zero_no_pull s a empty_world 2 H0 H1 H2).
Defined.

(** ** C4: a second consumption of [take] and of [scan] *)

(** A take suspended at its [yield] with [S k] left to count, over an array
    iterator with at least [k] elements left: it yields [k] of them and its
    count ends at zero. *)
Lemma spread_take_counting (k : nat) :
  forall (rest : list value) (w : World) (c : loc) (fuel : nat),
    (c < length (fields w))%nat ->
    read w c = Num (Z.of_nat (S k)) ->
    (k <= length rest)%nat ->
    (k + 3 <= fuel)%nat ->
    spread fuel w (TakeSync c (SuspendedYield (ArrayIterator rest))) =
    Some ({| fields := <[c := Num 0]> (fields w); pulls := (pulls w + k)%nat |},
          firstn k rest).
Proof.
  induction k as [|k IH]; intros rest w c fuel Hc Hr Hlen Hfuel.
  - destruct fuel as [|[|fuel]]; try lia.
    rewrite spread_S, next_TakeSync_yield, Hr. simpl.
    unfold write. simpl. do 2 f_equal. f_equal. lia.
  - destruct fuel as [|[|[|fuel]]]; try lia.
    destruct rest as [|a rest]; simpl in Hlen; try lia.
    rewrite spread_S, next_TakeSync_yield, Hr.
    unfold js_decrement, js_sub. rewrite js_is_zero_Num.
    replace (Z.of_nat (S (S k)) - 1) with (Z.of_nat (S k)) by lia.
    destruct (Z.eqb_spec (Z.of_nat (S k)) 0) as [E|_]; [lia|].
    rewrite next_ArrayIterator.
    rewrite (IH rest (pulled (write w c (Num (Z.of_nat (S k))))) c (S (S fuel))).
    + simpl. rewrite list_insert_insert_eq. do 3 f_equal. lia.
    + simpl. rewrite length_insert. exact Hc.
    + unfold read. simpl. rewrite list_lookup_insert_eq; auto.
    + lia.
    + lia.
Qed.

(** Once the count is zero, a consumption yields nothing and changes
    nothing. *)
Lemma syncArray_take_exhausted (xs : list value) (c : loc) (w : World) (fuel : nat) :
  read w c = Num 0 ->
  (2 <= fuel)%nat ->
  syncArray fuel w (Sequence_of (array xs) (Some (compose (TakeTransducer c) identity))) =
  Some (w, []).
Proof.
  intros Hr Hfuel. unfold syncArray. simpl.
  destruct fuel as [|[|fuel]]; try lia.
  rewrite spread_S, next_TakeSync_start, Hr. reflexivity.
Qed.

Lemma consume_times_take_exhausted (xs : list value) (c : loc) (w : World) (fuel k : nat) :
  read w c = Num 0 ->
  (2 <= fuel)%nat ->
  consume_times k fuel w
    (Sequence_of (array xs) (Some (compose (TakeTransducer c) identity))) =
  Some (w, repeat [] k).
Proof.
  intros Hr Hfuel. induction k as [|k IH]; simpl; [reflexivity|].
  rewrite syncArray_take_exhausted by assumption. rewrite IH. reflexivity.
Qed.

(** The first consumption of [take(n)] over an array of at least [n]
    elements, [0 < n]. *)
Lemma syncArray_take_first (xs : list value) (n : nat) (c : loc) (w : World) (fuel : nat) :
  (c < length (fields w))%nat ->
  read w c = Num (Z.of_nat (S n)) ->
  (S n <= length xs)%nat ->
  (n + 4 <= fuel)%nat ->
  syncArray fuel w (Sequence_of (array xs) (Some (compose (TakeTransducer c) identity))) =
  Some ({| fields := <[c := Num 0]> (fields w); pulls := (pulls w + S n)%nat |},
        firstn (S n) xs).
Proof.
  intros Hc Hr Hlen Hfuel. unfold syncArray. simpl.
  destruct fuel as [|[|[|fuel]]]; try lia.
  destruct xs as [|a rest]; simpl in Hlen; try lia.
  rewrite spread_S, next_TakeSync_start, Hr, js_is_zero_Num.
  destruct (Z.eqb_spec (Z.of_nat (S n)) 0) as [E|_]; [lia|].
  simpl GetIterator. rewrite next_ArrayIterator.
  rewrite (spread_take_counting n rest (pulled w) c); simpl; auto; try lia.
  do 3 f_equal. lia.
Qed.

(** A scan over an array iterator yields the running folds from the
    accumulator it finds in the store, and leaves the whole fold there. *)
Lemma spread_scan (r : Reducer.t) (c : loc) (rest : list value) :
  forall (st : ForOf Iterable) (w : World) (fuel : nat),
    loop_iterator st = Some (ArrayIterator rest) ->
    (c < length (fields w))%nat ->
    (length rest + 3 <= fuel)%nat ->
    spread fuel w (ScanSync r c st) =
    Some ({| fields := <[c := fold_left (Reducer.call r) rest (read w c)]> (fields w);
             pulls := (pulls w + S (length rest))%nat |},
          running r (read w c) rest).
Proof.
  induction rest as [|a rest IH]; intros st w fuel Hst Hc Hfuel;
    (destruct fuel as [|[|[|fuel]]]; [simpl in Hfuel; lia..|]);
    rewrite spread_S, next_ScanSync, Hst, next_ArrayIterator.
  - simpl. rewrite insert_read by exact Hc.
    unfold pulled. do 3 f_equal. lia.
  - assert (Hread : read (pulled w) c = read w c) by reflexivity.
    rewrite Hread.
    rewrite (IH (SuspendedYield (ArrayIterator rest))); simpl.
    + rewrite list_insert_insert_eq.
      replace (read (write (pulled w) c (Reducer.call r (read w c) a)) c)
        with (Reducer.call r (read w c) a).
      * do 3 f_equal. lia.
      * unfold read. simpl. rewrite list_lookup_insert_eq; auto.
    + reflexivity.
    + rewrite length_insert. exact Hc.
    + simpl in Hfuel. lia.
Qed.

Lemma consume_times_scan (r : Reducer.t) (c : loc) (xs : list value) (fuel k : nat) :
  forall (w : World),
    (c < length (fields w))%nat ->
    (length xs + 3 <= fuel)%nat ->
    exists w2,
      consume_times k fuel w
        (Sequence_of (array xs) (Some (compose (ScanTransducer r c) identity))) =
      Some (w2, rescans r (read w c) xs k).
Proof.
  induction k as [|k IH]; intros w Hc Hfuel; simpl; [eauto|].
  unfold syncArray. simpl.
  rewrite (spread_scan r c xs) by (auto; reflexivity).
  match goal with |- context [consume_times k fuel ?w1 _] => destruct (IH w1) as [w2 H2] end.
  - simpl. rewrite length_insert. exact Hc.
  - exact Hfuel.
  - rewrite H2. exists w2. do 3 f_equal.
    unfold read at 1. simpl. rewrite list_lookup_insert_eq by exact Hc. reflexivity.
Qed.

(** The consumptions of a facade built by [take(n)] over an array, and of
    one built by [scan(reducer)], in the store that building it left. *)
Lemma take_consumed_again (xs : list value) (w : World) (n : Z) (k fuel : nat) :
  0 < n ->
  n <= Z.of_nat (length xs) ->
  (length xs + 4 <= fuel)%nat ->
  exists w2 : World,
    consume_times (S k) fuel (grown w (Num n))
      (Sequence_of (array xs) (Some (compose (TakeTransducer (length (fields w))) identity))) =
    Some (w2, firstn (Z.to_nat n) xs :: repeat [] k).
Proof.
  intros Hn Hlen Hfuel.
  set (c := length (fields w)). set (w1 := grown w (Num n)).
  assert (Hc : (c < length (fields w1))%nat).
  { subst w1 c. simpl. rewrite length_app. simpl. lia. }
  assert (Hr : read w1 c = Num (Z.of_nat (S (Z.to_nat n - 1)))).
  { subst w1 c. rewrite read_grown_new. f_equal. lia. }
  eexists. rewrite consume_times_S.
  rewrite (syncArray_take_first xs (Z.to_nat n - 1) c w1 fuel Hc Hr) by lia.
  rewrite consume_times_take_exhausted.
  - replace (S (Z.to_nat n - 1)) with (Z.to_nat n) by lia. reflexivity.
  - unfold read. simpl. rewrite list_lookup_insert_eq by exact Hc. reflexivity.
  - lia.
Qed.

Lemma scan_consumed_again (xs : list value) (w : World) (r : Reducer.t) (k fuel : nat) :
  (length xs + 3 <= fuel)%nat ->
  exists w2 : World,
    consume_times k fuel (grown w (Reducer.identity r))
      (Sequence_of (array xs) (Some (compose (ScanTransducer r (length (fields w))) identity))) =
    Some (w2, rescans r (Reducer.identity r) xs k).
Proof.
  intros Hfuel.
  set (c := length (fields w)). set (w1 := grown w (Reducer.identity r)).
  assert (Hc : (c < length (fields w1))%nat).
  { subst w1 c. simpl. rewrite length_app. simpl. lia. }
  destruct (consume_times_scan r c xs fuel k w1 Hc Hfuel) as [w2 H2].
  exists w2. rewrite H2. do 3 f_equal. subst w1 c. apply read_grown_new.
Qed.

(** C4.  [take(n)], [0 < n], over an array of at least [n] elements: the
    first consumption yields the first [n] elements, and each of the [k]
    consumptions of the same facade that follow yields nothing.
    [scan(reducer)] over an array: its accumulator is set to
    [reducer.identity()] when the facade is built and never again, so the
    [k] consumptions of the facade give the running folds of [rescans], each
    one starting from the accumulator that the one before left.  The same
    holds of the asynchronous facades over an asynchronous source of the
    same elements. *)
Theorem take_and_scan_single_use
  (xs : list value) (w : World) (n : Z) (reducer : Reducer.t) (k fuel : nat) :
  0 < n ->
  n <= Z.of_nat (length xs) ->
  (length xs + 4 <= fuel)%nat ->
  (exists (s' : Sequence) (w1 w2 : World),
      Sequence_take n (Sequence_of (array xs) None) w =
        (w1, Returned (Some (IsSequence s'))) /\
      consume_times (S k) fuel w1 s' =
        Some (w2, firstn (Z.to_nat n) xs :: repeat [] k)) /\
  (exists (s' : Sequence) (w1 w2 : World),
      Sequence_scan reducer (Sequence_of (array xs) None) w =
        (w1, Returned (Some (IsSequence s'))) /\
      consume_times k fuel w1 s' =
        Some (w2, rescans reducer (Reducer.identity reducer) xs k)) /\
  (exists (a' : AsyncSequence) (w1 w2 : World),
      AsyncSequence_take n (AsyncSequence_of (async_source xs) None) w =
        (w1, Returned (Some (IsAsyncSequence a'))) /\
      async_consume_times (S k) fuel w1 a' =
        Some (w2, firstn (Z.to_nat n) xs :: repeat [] k)) /\
  (exists (a' : AsyncSequence) (w1 w2 : World),
      AsyncSequence_scan reducer (AsyncSequence_of (async_source xs) None) w =
        (w1, Returned (Some (IsAsyncSequence a'))) /\
      async_consume_times k fuel w1 a' =
        Some (w2, rescans reducer (Reducer.identity reducer) xs k)).
Proof.
  intros Hn Hlen Hfuel.
  destruct (take_consumed_again xs w n k fuel Hn Hlen Hfuel) as [wt Ht].
  destruct (scan_consumed_again xs w reducer k fuel ltac:(lia)) as [ws Hs].
  split; [|split; [|split]].
  - eexists _, _, wt. split; [reflexivity|]. exact Ht.
  - eexists _, _, ws. split; [reflexivity|]. exact Hs.
  - eexists _, _, wt. split; [reflexivity|].
    rewrite <- Ht. apply consume_times_agree.
  - eexists _, _, ws. split; [reflexivity|].
    rewrite <- Hs. apply consume_times_agree.
Qed.

Lemma take_and_scan_single_use_witness :
  0 < 2 /\ 2 <= Z.of_nat (length [Num 1; Num 2; Num 3]) /\
  (length [Num 1; Num 2; Num 3] + 4 <= 8)%nat /\
  (exists (s' : Sequence) (w1 w2 : World),
      Sequence_take 2 (Sequence_of (array [Num 1; Num 2; Num 3]) None) empty_world =
        (w1, Returned (Some (IsSequence s'))) /\
      consume_times 3 8 w1 s' = Some (w2, [[Num 1; Num 2]; []; []])) /\
  (exists (s' : Sequence) (w1 w2 : World),
      Sequence_scan sum (Sequence_of (array [Num 1; Num 2; Num 3]) None) empty_world =
        (w1, Returned (Some (IsSequence s'))) /\
      consume_times 2 8 w1 s' =
        Some (w2, [[Num 1; Num 3; Num 6]; [Num 7; Num 9; Num 12]])).
Proof.
  assert (H0 : 0 < 2) by lia.
  assert (H1 : 2 <= Z.of_nat (length [Num 1; Num 2; Num 3])) by (simpl; lia).
  assert (H2 : (length [Num 1; Num 2; Num 3] + 4 <= 8)%nat) by (simpl; lia).
  split; [exact H0|]. split; [exact H1|]. split; [exact H2|].
  pose proof (take_and_scan_single_use [Num 1; Num 2; Num 3] empty_world 2 sum 2 8
                H0 H1 H2) as H.
  split; [exact (proj1 H) | exact (proj1 (proj2 H))].
Defined.

(** ** C5: [reduce] *)

Lemma last_running (r : Reducer.t) (xs : list value) :
  forall (acc d : value),
    List.last (running r acc xs) d =
    match xs with
    | [] => d
    | _ :: _ => fold_left (Reducer.call r) xs acc
    end.
Proof.
  induction xs as [|a xs IH]; intros acc d; [reflexivity|].
  simpl running. rewrite last_cons_default, IH.
  destruct xs; reflexivity.
Qed.

(** A scan whose accumulator is the field that [alloc] has just made, over
    any iterator that can be drained: it yields the running folds of what
    the iterator yields, and leaves the whole fold in its field. *)
Lemma spread_scan_over (r : Reducer.t) (fuel : nat) :
  forall (w : World) (st : ForOf Iterable) (it : Iterable) (w' : World)
         (l : list value) (acc : value),
    loop_iterator st = Some it ->
    spread fuel w it = Some (w', l) ->
    cells_below (length (fields w)) it = true ->
    spread (S fuel) (grown w acc) (ScanSync r (length (fields w)) st) =
    Some (grown w' (fold_left (Reducer.call r) l acc), running r acc l).
Proof.
  induction fuel as [|fuel IH]; intros w st it w' l acc Hst H Hwf; [discriminate|].
  rewrite spread_S in H.
  rewrite spread_S, next_ScanSync, Hst.
  destruct (next fuel w it) as [[[w1 it1] [a|]]|] eqn:E; try discriminate;
    destruct (proj1 (next_for_last_frame acc fuel) _ _ _ _ _ E Hwf) as (Hl & Hb & Hf);
    rewrite Hf.
  - destruct (spread fuel w1 it1) as [[w2 l2]|] eqn:E2; try discriminate.
    injection H as <- <-.
    rewrite <- Hl in Hb |- *.
    rewrite read_grown_new, write_grown_new.
    rewrite (IH w1 (SuspendedYield it1) it1 w2 l2 _ eq_refl E2 Hb).
    reflexivity.
  - injection H as <- <-. reflexivity.
Qed.

(** What [reduce(r)] drains to when the stage before it drains to [l]. *)
Lemma reduce_over (r : Reducer.t) (s : Sequence) (w w' : World) (fuel : nat)
  (l : list value) :
  Sequence_within w s = true ->
  syncArray fuel w s = Some (w', l) ->
  syncArray (fuel + 3) (grown w (Reducer.identity r))
    (Sequence_of (Sequence_iterable s)
       (Some (last (compose (ScanTransducer r (length (fields w)))
                      (Sequence_transducer s))))) =
  Some (grown w' (fold_left (Reducer.call r) l (Reducer.identity r)),
        match l with
        | [] => []
        | _ :: _ =>
            let folded := fold_left (Reducer.call r) l (Reducer.identity r) in
            if js_defined folded then [folded] else []
        end).
Proof.
  intros Hwf H. revert H Hwf.
  unfold syncArray, Sequence_within, Sequence_symbolIterator.
  destruct s as [v t].
  cbn [Sequence_iterable Sequence_transducer Sequence_of].
  destruct v as [| |[[i|] oa]]; try discriminate.
  cbn [symbolIterator].
  intros H Hwf. apply andb_true_iff in Hwf as [Ht Hi].
  cbn [sync compose last GetIterator].
  assert (Hu : cells_below (length (fields w)) (GetIterator (sync t i)) = true).
  { rewrite cells_below_GetIterator. apply cells_below_sync; assumption. }
  pose proof (spread_scan_over r fuel w (SuspendedStart (sync t i)) _ w' l
                (Reducer.identity r) eq_refl H Hu) as Hs.
  replace (fuel + 3)%nat with (S (S (S fuel))) by lia.
  rewrite (spread_last (S fuel) _
             (ScanSync r (length (fields w)) (SuspendedStart (sync t i))) _ _ Hs).
  rewrite last_running. f_equal. apply f_equal2; [reflexivity|].
  destruct l; reflexivity.
Qed.

Lemma reduce_over_array (r : Reducer.t) (xs : list value) (w : World) :
  exists w2 : World,
    syncArray (length xs + 5) (grown w (Reducer.identity r))
      (Sequence_of (array xs)
         (Some (last (compose (ScanTransducer r (length (fields w))) identity)))) =
    Some (w2,
          match xs with
          | [] => []
          | _ :: _ =>
              let folded := fold_left (Reducer.call r) xs (Reducer.identity r) in
              if js_defined folded then [folded] else []
          end).
Proof.
  eexists.
  replace (length xs + 5)%nat with (length xs + 2 + 3)%nat by lia.
  apply (reduce_over r (Sequence_of (array xs) None) w
           {| fields := fields w; pulls := (pulls w + S (length xs))%nat |}).
  - reflexivity.
  - unfold syncArray. simpl. apply spread_array. lia.
Qed.

(** C5.  [reduce(reducer, t)] is [last(scan(reducer, t))].  For every facade
    [s] whose consumption ends, with the elements [l], the facade
    [s.reduce(reducer)] drains to the one value that is the fold of
    [reducer.call] over [l] from [reducer.identity()]; it drains to nothing
    when [l] is empty or when that value is [undefined].  Arrays are such
    facades, asynchronous sources drain alike, and [reduce(sum)] over
    [[1, 2, 3, 4]] drains to [[10]]. *)
Theorem reduce_is_last_of_scan
  (s : Sequence) (reducer : Reducer.t) (w w' : World) (fuel : nat) (l : list value) :
  Sequence_within w s = true ->
  syncArray fuel w s = Some (w', l) ->
  (forall t : Transducer,
      reduce reducer t w = (fst (scan reducer t w), last (snd (scan reducer t w)))) /\
  (exists s' : Sequence,
      Sequence_reduce reducer s w =
        (grown w (Reducer.identity reducer), Returned (Some (IsSequence s'))) /\
      syncArray (fuel + 3) (grown w (Reducer.identity reducer)) s' =
        Some (grown w' (fold_left (Reducer.call reducer) l (Reducer.identity reducer)),
              match l with
              | [] => []
              | _ :: _ =>
                  let folded := fold_left (Reducer.call reducer) l (Reducer.identity reducer) in
                  if js_defined folded then [folded] else []
              end)) /\
  (forall xs : list value,
      exists (s' : Sequence) (w2 : World),
        Sequence_reduce reducer (Sequence_of (array xs) None) w =
          (grown w (Reducer.identity reducer), Returned (Some (IsSequence s'))) /\
        syncArray (length xs + 5) (grown w (Reducer.identity reducer)) s' =
          Some (w2,
                match xs with
                | [] => []
                | _ :: _ =>
                    let folded :=
                      fold_left (Reducer.call reducer) xs (Reducer.identity reducer) in
                    if js_defined folded then [folded] else []
                end)) /\
  (forall xs : list value,
      exists (a' : AsyncSequence) (w2 : World),
        AsyncSequence_reduce reducer (AsyncSequence_of (async_source xs) None) w =
          (grown w (Reducer.identity reducer), Returned (Some (IsAsyncSequence a'))) /\
        asyncArray (length xs + 5) (grown w (Reducer.identity reducer)) a' =
          Some (w2,
                match xs with
                | [] => []
                | _ :: _ =>
                    let folded :=
                      fold_left (Reducer.call reducer) xs (Reducer.identity reducer) in
                    if js_defined folded then [folded] else []
                end)) /\
  (exists (s' : Sequence) (w2 : World),
      Sequence_reduce sum (Sequence_of (array [Num 1; Num 2; Num 3; Num 4]) None) w =
        (grown w (Num 0), Returned (Some (IsSequence s'))) /\
      syncArray 9 (grown w (Num 0)) s' = Some (w2, [Num 10])).
Proof.
  intros Hwf H.
  assert (Hs : isIterable (Sequence_iterable s) = Returned true).
  { revert H. unfold syncArray, Sequence_symbolIterator.
    destruct (Sequence_iterable s) as [| |[[i|] oa]]; try discriminate. reflexivity. }
  split; [|split; [|split; [|split]]].
  - intros t. unfold reduce. destruct (scan reducer t w). reflexivity.
  - eexists. split.
    + unfold Sequence_reduce, Transducer_reduce, reduce, scan, new_ScanTransducer, alloc.
      rewrite (sequence_of_iterable _ _ Hs). reflexivity.
    + apply reduce_over; assumption.
  - intros xs. destruct (reduce_over_array reducer xs w) as [w2 H2].
    eexists _, w2. split; [reflexivity|]. exact H2.
  - intros xs. destruct (reduce_over_array reducer xs w) as [w2 H2].
    eexists _, w2. split; [reflexivity|].
    rewrite <- H2. symmetry. apply sync_and_async_agree.
  - destruct (reduce_over_array sum [Num 1; Num 2; Num 3; Num 4] w) as [w2 H2].
    eexists _, w2. split; [reflexivity|]. exact H2.
Qed.

Lemma reduce_is_last_of_scan_witness :
  let s := Sequence_of (array [Num 4; Num 5]) (Some (map increment identity)) in
  Sequence_within empty_world s = true /\
  syncArray 5 empty_world s = Some ({| fields := []; pulls := 3 |}, [Num 5; Num 6]) /\
  exists s' : Sequence,
    Sequence_reduce sum s empty_world =
      (grown empty_world (Num 0), Returned (Some (IsSequence s'))) /\
    syncArray 8 (grown empty_world (Num 0)) s' =
      Some (grown {| fields := []; pulls := 3 |} (Num 11), [Num 11]).
Proof.
  intros s.
  assert (H1 : Sequence_within empty_world s = true) by reflexivity.
  assert (H2 : syncArray 5 empty_world s
               = Some ({| fields := []; pulls := 3 |}, [Num 5; Num 6])) by reflexivity.
  split; [exact H1|]. split; [exact H2|].
  exact (proj1 (proj2 (reduce_is_last_of_scan s sum empty_world _ 5 _ H1 H2))).
Defined.

(** ** C6: [range] *)






(** ** C7 and C8: the factory *)

(** An object with both protocols is probed for [Symbol.iterator] first and
    becomes a [Sequence], not an [AsyncSequence]. *)
Lemma sequence_both_protocols_counterexample :
  let both :=
    JsObject {| symbolIterator := Some (ArrayIterable [Num 1]);
                symbolAsyncIterator := Some (AsyncSource [Num 1]) |} in
  sequence both None = Returned (Some (IsSequence (Sequence_of both None))) /\
  forall a : AsyncSequence, sequence both None <> Returned (Some (IsAsyncSequence a)).
Proof.
  split; [reflexivity|]. intros a H. discriminate H.
Qed.

(** C7, amended.  The factory probes the value, the one a function argument
    returned when the argument is a function, for [Symbol.iterator] before
    [Symbol.asyncIterator]: a value with a [Symbol.iterator] becomes a
    [Sequence], whether it has a [Symbol.asyncIterator] or not, and a value
    with a [Symbol.asyncIterator] and no [Symbol.iterator] becomes an
    [AsyncSequence]. *)
Theorem sequence_probes_sync_first (v : JsValue) (o : Obj) (t : option Transducer) :
  probed v = JsObject o ->
  (symbolIterator o <> None ->
   sequence v t = Returned (Some (IsSequence (Sequence_of (JsObject o) t)))) /\
  (symbolIterator o = None ->
   symbolAsyncIterator o <> None ->
   sequence v t = Returned (Some (IsAsyncSequence (AsyncSequence_of (JsObject o) t)))).
Proof.
  intros Hv.
  rewrite sequence_probes, Hv. unfold isIterable, isAsyncIterable. split.
  - intros Hi. rewrite bool_decide_eq_true_2 by exact Hi. reflexivity.
  - intros Hi Ha. rewrite bool_decide_eq_false_2 by (intros H; apply H; exact Hi).
    rewrite bool_decide_eq_true_2 by exact Ha. reflexivity.
Qed.

Lemma sequence_probes_sync_first_witness :
  let o := {| symbolIterator := Some (ArrayIterable [Num 1; Num 2]);
              symbolAsyncIterator := Some (AsyncSource [Num 3]) |} in
  probed (JsFunction (JsObject o)) = JsObject o /\
  symbolIterator o <> None /\
  sequence (JsFunction (JsObject o)) None =
    Returned (Some (IsSequence (Sequence_of (JsObject o) None))).
Proof.
  intros o.
  assert (H0 : probed (JsFunction (JsObject o)) = JsObject o) by reflexivity.
  assert (H1 : symbolIterator o <> None) by discriminate.
  split; [exact H0|]. split; [exact H1|].
  exact (proj1 (sequence_probes_sync_first (JsFunction (JsObject o)) o None H0) H1).
Defined.




(** ** C9: chaining evaluates nothing *)

Lemma extends_pure (t stage : Transducer) (w : World) :
  decompose stage <> [] -> extends t (compose stage t) w w.
Proof.
  intros Hs. split; [|split].
  - exists (decompose stage). split; [exact Hs|]. reflexivity.
  - exists []. rewrite app_nil_r. reflexivity.
  - reflexivity.
Qed.

Lemma extends_find (t : Transducer) (p : Predicate) (w : World) :
  extends t (find p t) w w.
Proof.
  split; [|split]; [|exists []; rewrite app_nil_r; reflexivity|reflexivity].
  exists [FilterTransducer p; FirstTransducer]. split; [discriminate|].
  simpl. rewrite <- app_assoc. reflexivity.
Qed.

Lemma extends_take (t : Transducer) (n : Z) (w : World) :
  extends t (snd (take n t w)) w (fst (take n t w)).
Proof.
  split; [|split]; simpl.
  - exists [TakeTransducer (length (fields w))]. split; [discriminate|reflexivity].
  - exists [Num n]. reflexivity.
  - reflexivity.
Qed.

Lemma extends_scan (t : Transducer) (r : Reducer.t) (w : World) :
  extends t (snd (scan r t w)) w (fst (scan r t w)).
Proof.
  split; [|split]; simpl.
  - exists [ScanTransducer r (length (fields w))]. split; [discriminate|reflexivity].
  - exists [Reducer.identity r]. reflexivity.
  - reflexivity.
Qed.

Lemma extends_reduce (t : Transducer) (r : Reducer.t) (w : World) :
  extends t (snd (reduce r t w)) w (fst (reduce r t w)).
Proof.
  split; [|split]; simpl.
  - exists [ScanTransducer r (length (fields w)); LastTransducer].
    split; [discriminate|]. rewrite <- app_assoc. reflexivity.
  - exists [Reducer.identity r]. reflexivity.
  - reflexivity.
Qed.

(** Each chaining call of [Sequence] hands the factory the source of the
    facade and a transducer that extends the one of the facade. *)
Lemma Sequence_chain_sequence (op : Chain) (s : Sequence) (w : World) :
  exists (t' : Transducer) (w' : World),
    Sequence_chain op s w = (w', sequence (Sequence_iterable s) (Some t')) /\
    extends (Sequence_transducer s) t' w w'.
Proof.
  destruct op as [m|p|p| | |n|p|r|r]; simpl.
  - eexists _, w. split; [reflexivity|]. apply extends_pure. discriminate.
  - eexists _, w. split; [reflexivity|]. apply extends_pure. discriminate.
  - eexists _, w. split; [reflexivity|]. apply extends_find.
  - eexists _, w. split; [reflexivity|]. apply extends_pure. discriminate.
  - eexists _, w. split; [reflexivity|]. apply extends_pure. discriminate.
  - eexists _, _. split; [reflexivity|]. apply extends_take.
  - eexists _, w. split; [reflexivity|]. apply extends_pure. discriminate.
  - eexists _, _. split; [reflexivity|]. apply extends_scan.
  - eexists _, _. split; [reflexivity|]. apply extends_reduce.
Qed.

Lemma AsyncSequence_chain_sequence (op : Chain) (s : AsyncSequence) (w : World) :
  exists (t' : Transducer) (w' : World),
    AsyncSequence_chain op s w = (w', sequence (AsyncSequence_iterable s) (Some t')) /\
    extends (AsyncSequence_transducer s) t' w w'.
Proof.
  destruct op as [m|p|p| | |n|p|r|r]; simpl.
  - eexists _, w. split; [reflexivity|]. apply extends_pure. discriminate.
  - eexists _, w. split; [reflexivity|]. apply extends_pure. discriminate.
  - eexists _, w. split; [reflexivity|]. apply extends_find.
  - eexists _, w. split; [reflexivity|]. apply extends_pure. discriminate.
  - eexists _, w. split; [reflexivity|]. apply extends_pure. discriminate.
  - eexists _, _. split; [reflexivity|]. apply extends_take.
  - eexists _, w. split; [reflexivity|]. apply extends_pure. discriminate.
  - eexists _, _. split; [reflexivity|]. apply extends_scan.
  - eexists _, _. split; [reflexivity|]. apply extends_reduce.
Qed.

(** C9.  Each of the nine chaining calls, on a [Sequence] over a source with
    a [Symbol.iterator] and on an [AsyncSequence] over a source with a
    [Symbol.asyncIterator], returns a facade: its source is the source of
    the facade it was called on, its transducer has the stages of that
    facade's transducer and then new ones, no source iterator has received a
    call of [next], and the store has changed by nothing but the fields of
    the new transducer objects. *)
Theorem chaining_evaluates_nothing
  (op : Chain) (w : World) (s : Sequence) (a : AsyncSequence) :
  isIterable (Sequence_iterable s) = Returned true ->
  isAsyncIterable (AsyncSequence_iterable a) = Returned true ->
  (exists (s' : Sequence) (w' : World),
      Sequence_chain op s w = (w', Returned (Some (IsSequence s'))) /\
      Sequence_iterable s' = Sequence_iterable s /\
      extends (Sequence_transducer s) (Sequence_transducer s') w w') /\
  (exists (f : Facade) (w' : World),
      AsyncSequence_chain op a w = (w', Returned (Some f)) /\
      Facade_iterable f = AsyncSequence_iterable a /\
      extends (AsyncSequence_transducer a) (Facade_transducer f) w w').
Proof.
  intros Hs Ha. split.
  - destruct (Sequence_chain_sequence op s w) as (t' & w' & Hc & He).
    exists (Sequence_of (Sequence_iterable s) (Some t')), w'.
    rewrite Hc, (sequence_of_iterable _ _ Hs). auto.
  - destruct (AsyncSequence_chain_sequence op a w) as (t' & w' & Hc & He).
    destruct (sequence_of_source (AsyncSequence_iterable a) t' (or_intror Ha))
      as (f & Hf & Hi & Ht).
    exists f, w'. rewrite Hc, Hf, Hi, Ht. auto.
Qed.

Lemma chaining_evaluates_nothing_witness :
  let s := Sequence_of (array [Num 1; Num 2]) None in
  let a := AsyncSequence_of (async_source [Num 1; Num 2]) None in
  isIterable (Sequence_iterable s) = Returned true /\
  isAsyncIterable (AsyncSequence_iterable a) = Returned true /\
  (exists (s' : Sequence) (w' : World),
      Sequence_chain (ChainTake 1) s empty_world = (w', Returned (Some (IsSequence s'))) /\
      Sequence_iterable s' = Sequence_iterable s /\
      extends (Sequence_transducer s) (Sequence_transducer s') empty_world w').
Proof.
  intros s a.
  assert (H0 : isIterable (Sequence_iterable s) = Returned true) by reflexivity.
  assert (H1 : isAsyncIterable (AsyncSequence_iterable a) = Returned true) by reflexivity.
  split; [exact H0|]. split; [exact H1|].
  exact (proj1 (chaining_evaluates_nothing (ChainTake 1) empty_world s a H0 H1)).
Defined.

(** ** C10: [take] of a negative count *)

(** A take suspended at its [yield] whose count [m] is negative, over any
    iterator that can be drained: it yields what the iterator yields, and
    counts down once for each call of [next] it receives. *)
Lemma spread_take_negative (fuel : nat) :
  forall (w : World) (it : Iterable) (w' : World) (l : list value) (m : Z),
    spread fuel w it = Some (w', l) ->
    cells_below (length (fields w)) it = true ->
    m < 0 ->
    spread (S fuel) (grown w (Num m)) (TakeSync (length (fields w)) (SuspendedYield it)) =
    Some (grown w' (Num (m - Z.of_nat (length l) - 1)), l).
Proof.
  induction fuel as [|fuel IH]; intros w it w' l m H Hwf Hm; [discriminate|].
  rewrite spread_S in H.
  rewrite spread_S, next_TakeSync_yield, read_grown_new, write_grown_new.
  unfold js_decrement, js_sub. rewrite js_is_zero_Num.
  destruct (Z.eqb_spec (m - 1) 0) as [E0|_]; [lia|].
  destruct (next fuel w it) as [[[w1 it1] [a|]]|] eqn:E; try discriminate.
  - destruct (proj1 (next_for_last_frame (Num (m - 1)) fuel) _ _ _ _ _ E Hwf)
      as (Hl & Hb & Hf).
    rewrite Hf.
    destruct (spread fuel w1 it1) as [[w2 l2]|] eqn:E2; try discriminate.
    injection H as <- <-.
    rewrite <- Hl in Hb |- *.
    rewrite (IH w1 it1 w2 l2 (m - 1) E2 Hb ltac:(lia)).
    do 3 f_equal. simpl length. f_equal. lia.
  - destruct (proj1 (next_for_last_frame (Num (m - 1)) fuel) _ _ _ _ _ E Hwf)
      as (Hl & Hb & Hf).
    rewrite Hf. injection H as <- <-. do 3 f_equal. simpl. f_equal. lia.
Qed.

(** What [take(n)], [n < 0], drains to when the stage before it drains to
    [l]. *)
Lemma take_negative_over (n : Z) (s : Sequence) (w w' : World) (fuel : nat)
  (l : list value) :
  n < 0 ->
  Sequence_within w s = true ->
  syncArray fuel w s = Some (w', l) ->
  syncArray (S fuel) (grown w (Num n))
    (Sequence_of (Sequence_iterable s)
       (Some (compose (TakeTransducer (length (fields w))) (Sequence_transducer s)))) =
  Some (grown w' (Num (n - Z.of_nat (length l))), l).
Proof.
  intros Hn Hwf H. revert H Hwf.
  unfold syncArray, Sequence_within, Sequence_symbolIterator.
  destruct s as [v t].
  cbn [Sequence_iterable Sequence_transducer Sequence_of].
  destruct v as [| |[[i|] oa]]; try discriminate.
  cbn [symbolIterator].
  intros H Hwf. apply andb_true_iff in Hwf as [Ht Hi].
  cbn [sync compose GetIterator].
  assert (Hu : cells_below (length (fields w)) (GetIterator (sync t i)) = true).
  { rewrite cells_below_GetIterator. apply cells_below_sync; assumption. }
  destruct fuel as [|f]; [discriminate|].
  rewrite spread_S in H.
  rewrite spread_S, next_TakeSync_start, read_grown_new, js_is_zero_Num.
  destruct (Z.eqb_spec n 0) as [E0|_]; [lia|].
  destruct (next f w (GetIterator (sync t i))) as [[[w1 it1] [a|]]|] eqn:E;
    try discriminate;
    destruct (proj1 (next_for_last_frame (Num n) f) _ _ _ _ _ E Hu) as (Hl & Hb & Hf);
    rewrite Hf.
  - destruct (spread f w1 it1) as [[w2 l2]|] eqn:E2; try discriminate.
    injection H as <- <-.
    rewrite <- Hl in Hb |- *.
    rewrite (spread_take_negative f w1 it1 w2 l2 n E2 Hb Hn).
    do 3 f_equal. simpl length. f_equal. lia.
  - injection H as <- <-. do 3 f_equal. simpl. f_equal. lia.
Qed.

(** C10.  For every negative count [n] and every facade [s] whose
    consumption ends, with the elements [l]: the consumption of [s.take(n)]
    ends too and yields the same [l].  The count of the take is then still
    a negative number, further below zero than it began: it is
    [n - length l] when that is a safe integer.  Arrays are such sources:
    over the array [xs] the facade yields [xs].  So are the asynchronous
    facades over an asynchronous source of given elements, whatever their
    transducer. *)
Theorem take_negative_yields_everything
  (s : Sequence) (w w' : World) (n : Z) (fuel : nat) (l : list value) :
  n < 0 ->
  Sequence_within w s = true ->
  syncArray fuel w s = Some (w', l) ->
  (exists (s' : Sequence) (m : Z),
      Sequence_take n s w = (grown w (Num n), Returned (Some (IsSequence s'))) /\
      syncArray (S fuel) (grown w (Num n)) s' = Some (grown w' (Num m), l) /\
      m < 0 /\
      (isSafeInteger (n - Z.of_nat (length l)) = true -> m = n - Z.of_nat (length l))) /\
  (forall xs : list value,
      exists (s' : Sequence) (w2 : World),
        Sequence_take n (Sequence_of (array xs) None) w =
          (grown w (Num n), Returned (Some (IsSequence s'))) /\
        syncArray (length xs + 3) (grown w (Num n)) s' = Some (w2, xs)) /\
  (forall (xs : list value) (t : Transducer) (f : nat) (w0 : World) (l0 : list value),
      stages_below (length (fields w)) t = true ->
      asyncArray f w (AsyncSequence_of (async_source xs) (Some t)) = Some (w0, l0) ->
      exists (a' : AsyncSequence) (m : Z),
        AsyncSequence_take n (AsyncSequence_of (async_source xs) (Some t)) w =
          (grown w (Num n), Returned (Some (IsAsyncSequence a'))) /\
        asyncArray (S f) (grown w (Num n)) a' = Some (grown w0 (Num m), l0) /\
        m < 0 /\
        (isSafeInteger (n - Z.of_nat (length l0)) = true ->
         m = n - Z.of_nat (length l0))).
Proof.
  intros Hn Hwf H.
  assert (Hs : isIterable (Sequence_iterable s) = Returned true).
  { revert H. unfold syncArray, Sequence_symbolIterator.
    destruct (Sequence_iterable s) as [| |[[i|] oa]]; try discriminate. reflexivity. }
  split; [|split].
  - eexists _, (n - Z.of_nat (length l)). split; [|split; [|split]].
    + unfold Sequence_take, Transducer_take, take, new_TakeTransducer, alloc.
      rewrite (sequence_of_iterable _ _ Hs). reflexivity.
    + apply take_negative_over; assumption.
    + lia.
    + reflexivity.
  - intros xs. eexists _, _. split; [reflexivity|].
    replace (length xs + 3)%nat with (S (length xs + 2)) by lia.
    apply (take_negative_over n (Sequence_of (array xs) None) w
             {| fields := fields w; pulls := (pulls w + S (length xs))%nat |}).
    + exact Hn.
    + reflexivity.
    + unfold syncArray. simpl. apply spread_array. lia.
  - intros xs t f w0 l0 Ht Ha.
    exists (AsyncSequence_of (async_source xs)
              (Some (compose (TakeTransducer (length (fields w))) t))).
    exists (n - Z.of_nat (length l0)).
    split; [reflexivity|]. split; [|split; [lia | reflexivity]].
    rewrite <- sync_and_async_agree in Ha |- *.
    apply (take_negative_over n (Sequence_of (array xs) (Some t)) w w0 f l0 Hn).
    + unfold Sequence_within. simpl. rewrite Ht. reflexivity.
    + exact Ha.
Qed.

Lemma take_negative_yields_everything_witness :
  let s := Sequence_of (array [Num 4; Num 5]) (Some (map increment identity)) in
  -1 < 0 /\
  Sequence_within empty_world s = true /\
  syncArray 5 empty_world s = Some ({| fields := []; pulls := 3 |}, [Num 5; Num 6]) /\
  exists (s' : Sequence) (m : Z),
    Sequence_take (-1) s empty_world =
      (grown empty_world (Num (-1)), Returned (Some (IsSequence s'))) /\
    syncArray 6 (grown empty_world (Num (-1))) s' =
      Some (grown {| fields := []; pulls := 3 |} (Num m), [Num 5; Num 6]) /\
    m < 0 /\
    (isSafeInteger (-1 - Z.of_nat (length [Num 5; Num 6])) = true ->
     m = -1 - Z.of_nat (length [Num 5; Num 6])).
Proof.
  intros s.
  assert (H0 : -1 < 0) by lia.
  assert (H1 : Sequence_within empty_world s = true) by reflexivity.
  assert (H2 : syncArray 5 empty_world s
               = Some ({| fields := []; pulls := 3 |}, [Num 5; Num 6])) by reflexivity.
  split; [exact H0|]. split; [exact H1|]. split; [exact H2|].
  exact (proj1 (take_negative_yields_everything s empty_world _ (-1) 5 _ H0 H1 H2)).
Defined.

(** ** Further facts: the stages over any facade *)

Lemma next_MapSync (fuel : nat) (w : World) (m : Mapper) (st : ForOf Iterable) :
  next (S fuel) w (MapSync m st) =
  match loop_iterator st with
  | None => Some (w, MapSync m Completed, Done)
  | Some it =>
      match next fuel w it with
      | None => None
      | Some (w', it', Yield a) => Some (w', MapSync m (SuspendedYield it'), Yield (m a))
      | Some (w', _, Done) => Some (w', MapSync m Completed, Done)
      end
  end.
Proof. reflexivity. Qed.

Lemma next_FilterSync (fuel : nat) (w : World) (p : Predicate) (st : ForOf Iterable) :
  next (S fuel) w (FilterSync p st) =
  match loop_iterator st with
  | None => Some (w, FilterSync p Completed, Done)
  | Some it =>
      match next fuel w it with
      | None => None
      | Some (w', it', Yield a) =>
          if p a
          then Some (w', FilterSync p (SuspendedYield it'), Yield a)
          else next fuel w' (FilterSync p (SuspendedYield it'))
      | Some (w', _, Done) => Some (w', FilterSync p Completed, Done)
      end
  end.
Proof. reflexivity. Qed.

Lemma next_FirstSync_start (fuel : nat) (w : World) (i : Iterable) :
  next (S fuel) w (FirstSync (SuspendedStart i)) =
  match next fuel w (GetIterator i) with
  | None => None
  | Some (w', it', Yield a) => Some (w', FirstSync (SuspendedYield it'), Yield a)
  | Some (w', _, Done) => Some (w', FirstSync Completed, Done)
  end.
Proof. reflexivity. Qed.

(** The iterator of a facade is the iterator of some iterable [u]; a stage
    chained onto the facade loops over that [u]. *)
Lemma facade_source (s : Sequence) (it : Iterable) :
  Sequence_symbolIterator s = Some it ->
  exists u : Iterable,
    it = GetIterator u /\
    isIterable (Sequence_iterable s) = Returned true /\
    forall stage : Transducer,
      Sequence_symbolIterator
        (Sequence_of (Sequence_iterable s) (Some (compose stage (Sequence_transducer s)))) =
      Some (GetIterator (sync stage u)).
Proof.
  unfold Sequence_symbolIterator. destruct s as [v t]. simpl.
  destruct v as [| |[[i|] oa]]; try discriminate.
  intros H. injection H as <-. exists (sync t i).
  split; [reflexivity|]. split; reflexivity.
Qed.

Lemma syncArray_iterator (fuel : nat) (w : World) (s : Sequence) r :
  syncArray fuel w s = Some r ->
  exists it, Sequence_symbolIterator s = Some it /\ spread fuel w it = Some r.
Proof.
  unfold syncArray. destruct (Sequence_symbolIterator s) as [it|]; [|discriminate].
  intros H. exists it. auto.
Qed.

Lemma spread_map (m : Mapper) (fuel : nat) :
  forall (w : World) (st : ForOf Iterable) (it : Iterable) (w' : World) (l : list value),
    loop_iterator st = Some it ->
    spread fuel w it = Some (w', l) ->
    spread (S fuel) w (MapSync m st) = Some (w', List.map m l).
Proof.
  induction fuel as [|fuel IH]; intros w st it w' l Hst H; [discriminate|].
  rewrite spread_S in H. rewrite spread_S, next_MapSync, Hst.
  destruct (next fuel w it) as [[[w1 it1] [a|]]|]; try discriminate.
  - destruct (spread fuel w1 it1) as [[w2 l2]|] eqn:E; try discriminate.
    injection H as <- <-.
    rewrite (IH w1 (SuspendedYield it1) it1 w2 l2 eq_refl E). reflexivity.
  - injection H as <- <-. reflexivity.
Qed.

Lemma spread_filter (p : Predicate) (fuel : nat) :
  forall (w : World) (st : ForOf Iterable) (it : Iterable) (w' : World) (l : list value),
    loop_iterator st = Some it ->
    spread fuel w it = Some (w', l) ->
    spread (S fuel) w (FilterSync p st) = Some (w', List.filter p l).
Proof.
  induction fuel as [|fuel IH]; intros w st it w' l Hst H; [discriminate|].
  rewrite spread_S in H. rewrite spread_S, next_FilterSync, Hst.
  destruct (next fuel w it) as [[[w1 it1] [a|]]|]; try discriminate.
  - destruct (spread fuel w1 it1) as [[w2 l2]|] eqn:E; try discriminate.
    injection H as <- <-.
    pose proof (IH w1 (SuspendedYield it1) it1 w2 l2 eq_refl E) as Hrec.
    simpl List.filter. destruct (p a).
    + rewrite Hrec. reflexivity.
    + destruct fuel as [|fuel]; [discriminate|].
      rewrite spread_S in Hrec.
      destruct (next (S fuel) w1 (FilterSync p (SuspendedYield it1)))
        as [[[w3 it3] [b|]]|]; try discriminate; [|exact Hrec].
      destruct (spread (S fuel) w3 it3) as [[w4 l4]|] eqn:E4; try discriminate.
      rewrite (spread_mono (S fuel) (S (S fuel)) w3 it3 _ ltac:(lia) E4). exact Hrec.
  - injection H as <- <-. reflexivity.
Qed.

(** X1.  [map(mapper)] on any facade whose consumption ends: the new facade
    yields the image by [mapper] of each element the facade yields, in
    order, and leaves the store as the facade leaves it. *)
Theorem map_yields_images
  (s : Sequence) (mapper : Mapper) (w w' : World) (fuel : nat) (l : list value) :
  syncArray fuel w s = Some (w', l) ->
  exists s' : Sequence,
    Sequence_map mapper s = Returned (Some (IsSequence s')) /\
    syncArray (S fuel) w s' = Some (w', List.map mapper l).
Proof.
  intros H. destruct (syncArray_iterator _ _ _ _ H) as (it & Hit & Hsp).
  destruct (facade_source s it Hit) as (u & -> & Hs & Hchain).
  eexists. split.
  - unfold Sequence_map, Transducer_map, map. apply sequence_of_iterable. exact Hs.
  - unfold syncArray. rewrite (Hchain (MapTransducer mapper)).
    apply (spread_map mapper fuel w (SuspendedStart u) _ w' l eq_refl Hsp).
Qed.

Lemma map_yields_images_witness :
  let s := Sequence_of (array [Num 1; Num 2]) None in
  syncArray 4 empty_world s = Some (pulled_times 3 empty_world, [Num 1; Num 2]) /\
  exists s' : Sequence,
    Sequence_map increment s = Returned (Some (IsSequence s')) /\
    syncArray 5 empty_world s' = Some (pulled_times 3 empty_world, [Num 2; Num 3]).
Proof.
  intros s.
  assert (H : syncArray 4 empty_world s
              = Some (pulled_times 3 empty_world, [Num 1; Num 2])) by reflexivity.
  split; [exact H|].
  exact (map_yields_images s increment empty_world _ 4 _ H).
Defined.

(** X2.  [filter(predicate)] on any facade whose consumption ends: the new
    facade yields the elements of the facade that pass [predicate], in
    order, pulls the facade to its end, and leaves the store as the facade
    leaves it. *)
Theorem filter_yields_passing
  (s : Sequence) (predicate : Predicate) (w w' : World) (fuel : nat) (l : list value) :
  syncArray fuel w s = Some (w', l) ->
  exists s' : Sequence,
    Sequence_filter predicate s = Returned (Some (IsSequence s')) /\
    syncArray (S fuel) w s' = Some (w', List.filter predicate l).
Proof.
  intros H. destruct (syncArray_iterator _ _ _ _ H) as (it & Hit & Hsp).
  destruct (facade_source s it Hit) as (u & -> & Hs & Hchain).
  eexists. split.
  - unfold Sequence_filter, Transducer_filter, filter. apply sequence_of_iterable. exact Hs.
  - unfold syncArray. rewrite (Hchain (FilterTransducer predicate)).
    apply (spread_filter predicate fuel w (SuspendedStart u) _ w' l eq_refl Hsp).
Qed.

Lemma filter_yields_passing_witness :
  let s := Sequence_of (array [Num 1; Num 5; Num 2]) None in
  let small := fun v => js_le v (Num 2) in
  syncArray 5 empty_world s = Some (pulled_times 4 empty_world, [Num 1; Num 5; Num 2]) /\
  exists s' : Sequence,
    Sequence_filter small s = Returned (Some (IsSequence s')) /\
    syncArray 6 empty_world s' = Some (pulled_times 4 empty_world, [Num 1; Num 2]).
Proof.
  intros s small.
  assert (H : syncArray 5 empty_world s
              = Some (pulled_times 4 empty_world, [Num 1; Num 5; Num 2])) by reflexivity.
  split; [exact H|].
  exact (filter_yields_passing s small empty_world _ 5 _ H).
Defined.

(** X3.  [first()] on any facade: the new facade makes one call of [next]
    on the iterator of the facade and no other.  It yields the element that
    call gives, or nothing when that call ends the iteration; the elements
    after the first are never asked for, so the source may be infinite. *)
Theorem first_makes_one_pull
  (s : Sequence) (it : Iterable) (w w' : World) (fuel : nat) (l : list value) :
  Sequence_symbolIterator s = Some it ->
  pulls_of 1 fuel w it = Some (w', l) ->
  exists s' : Sequence,
    Sequence_first s = Returned (Some (IsSequence s')) /\
    syncArray (S (S fuel)) w s' = Some (w', l).
Proof.
  intros Hit H.
  destruct (facade_source s it Hit) as (u & -> & Hs & Hchain).
  eexists. split.
  - unfold Sequence_first, Transducer_first, first. apply sequence_of_iterable. exact Hs.
  - unfold syncArray. rewrite (Hchain FirstTransducer).
    cbn [sync GetIterator]. rewrite spread_S, next_FirstSync_start.
    cbn [pulls_of] in H.
    destruct fuel as [|fuel]; [discriminate|].
    destruct (next (S fuel) w (GetIterator u)) as [[[w1 it1] [a|]]|]; try discriminate.
    + injection H as <- <-. rewrite spread_S. reflexivity.
    + injection H as <- <-. reflexivity.
Qed.

Lemma first_makes_one_pull_witness :
  let s := Sequence_of (generator_object (IterateGenerator increment (Num 7) false)) None in
  let it := IterateGenerator increment (Num 7) false in
  Sequence_symbolIterator s = Some it /\
  pulls_of 1 1 empty_world it = Some (pulled_times 1 empty_world, [Num 7]) /\
  exists s' : Sequence,
    Sequence_first s = Returned (Some (IsSequence s')) /\
    syncArray 3 empty_world s' = Some (pulled_times 1 empty_world, [Num 7]).
Proof.
  intros s it.
  assert (H1 : Sequence_symbolIterator s = Some it) by reflexivity.
  assert (H2 : pulls_of 1 1 empty_world it = Some (pulled_times 1 empty_world, [Num 7]))
    by reflexivity.
  split; [exact H1|]. split; [exact H2|].
  exact (first_makes_one_pull s it empty_world _ 1 _ H1 H2).
Defined.

(** ** Further facts: [take] of a positive count *)

(** A take suspended at its [yield] with the count [S k], over any iterator:
    it makes the [k] calls of [next] that [pulls_of] makes, stopping at the
    first that ends the iteration, and counts down once for each element
    but the one that ends it. *)
Lemma spread_take_positive (fuel k : nat) :
  forall (w : World) (it : Iterable) (w' : World) (l : list value),
    pulls_of k fuel w it = Some (w', l) ->
    cells_below (length (fields w)) it = true ->
    spread (S (S (fuel + k))) (grown w (Num (Z.of_nat (S k))))
      (TakeSync (length (fields w)) (SuspendedYield it)) =
    Some (grown w' (Num (Z.of_nat k - Z.of_nat (length l))), l).
Proof.
  induction k as [|k IH]; intros w it w' l H Hwf.
  - injection H as <- <-.
    rewrite spread_S, next_TakeSync_yield, read_grown_new, write_grown_new.
    reflexivity.
  - cbn [pulls_of] in H.
    rewrite spread_S, next_TakeSync_yield, read_grown_new, write_grown_new.
    unfold js_decrement, js_sub. rewrite js_is_zero_Num.
    destruct (Z.eqb_spec (Z.of_nat (S (S k)) - 1) 0) as [E0|_]; [lia|].
    replace (Z.of_nat (S (S k)) - 1) with (Z.of_nat (S k)) by lia.
    destruct (next fuel w it) as [[[w1 it1] [a|]]|] eqn:E; try discriminate.
    + destruct (proj1 (next_for_last_frame (Num (Z.of_nat (S k))) fuel) _ _ _ _ _ E Hwf)
        as (Hl & Hb & Hf).
      rewrite (next_mono fuel (fuel + S k) _ _ _ ltac:(lia) Hf).
      destruct (pulls_of k fuel w1 it1) as [[w2 l2]|] eqn:E2; try discriminate.
      injection H as <- <-.
      rewrite <- Hl in Hb |- *.
      replace (fuel + S k)%nat with (S (fuel + k)) by lia.
      rewrite (IH w1 it1 w2 l2 E2 Hb).
      do 3 f_equal. simpl length. f_equal. lia.
    + destruct (proj1 (next_for_last_frame (Num (Z.of_nat (S k))) fuel) _ _ _ _ _ E Hwf)
        as (Hl & Hb & Hf).
      rewrite (next_mono fuel (fuel + S k) _ _ _ ltac:(lia) Hf).
      injection H as <- <-.
      replace (Z.of_nat (S k) - Z.of_nat (length (@nil value))) with (Z.of_nat (S k))
        by (simpl length; lia).
      reflexivity.
Qed.

(** What [take(n)], [n > 0], drains to over the stage before it. *)
Lemma take_positive_over (n : Z) (s : Sequence) (it : Iterable) (w w' : World)
  (fuel : nat) (l : list value) :
  0 < n ->
  Sequence_within w s = true ->
  Sequence_symbolIterator s = Some it ->
  pulls_of (Z.to_nat n) fuel w it = Some (w', l) ->
  syncArray (S (S (fuel + Z.to_nat n))) (grown w (Num n))
    (Sequence_of (Sequence_iterable s)
       (Some (compose (TakeTransducer (length (fields w))) (Sequence_transducer s)))) =
  Some (grown w' (Num (n - Z.of_nat (length l))), l).
Proof.
  intros Hn Hwf Hit H.
  destruct (facade_source s it Hit) as (u & -> & Hs & Hchain).
  assert (Hu : cells_below (length (fields w)) (GetIterator u) = true).
  { revert Hit Hwf. unfold Sequence_symbolIterator, Sequence_within.
    destruct s as [v t]. cbn [Sequence_iterable Sequence_transducer].
    destruct v as [| |[[i|] oa]]; try discriminate.
    cbn [symbolIterator]. intros Hit Hwf. injection Hit as Hit. rewrite <- Hit.
    apply andb_true_iff in Hwf as [Ht Hi].
    rewrite cells_below_GetIterator. apply cells_below_sync; assumption. }
  unfold syncArray. rewrite (Hchain (TakeTransducer (length (fields w)))).
  cbn [sync GetIterator].
  destruct (Z.to_nat n) as [|k] eqn:Ek; [lia|].
  assert (En : n = Z.of_nat (S k)) by lia.
  cbn [pulls_of] in H.
  replace (fuel + S k)%nat with (S (fuel + k)) by lia.
  rewrite spread_S, next_TakeSync_start, read_grown_new, js_is_zero_Num.
  destruct (Z.eqb_spec n 0) as [E0|_]; [lia|].
  destruct (next fuel w (GetIterator u)) as [[[w1 it1] [a|]]|] eqn:E; try discriminate;
    destruct (proj1 (next_for_last_frame (Num n) fuel) _ _ _ _ _ E Hu) as (Hl & Hb & Hf);
    rewrite (next_mono fuel (S (fuel + k)) _ _ _ ltac:(lia) Hf).
  - destruct (pulls_of k fuel w1 it1) as [[w2 l2]|] eqn:E2; try discriminate.
    injection H as <- <-.
    rewrite <- Hl in Hb |- *. rewrite En at 1.
    rewrite (spread_take_positive fuel k w1 it1 w2 l2 E2 Hb).
    do 3 f_equal. simpl length. f_equal. lia.
  - injection H as <- <-.
    replace (n - Z.of_nat (length (@nil value))) with n by (simpl length; lia).
    reflexivity.
Qed.

(** X4.  [take(n)] with a safe integer [n > 0] on any facade: the new
    facade makes the calls of [next] on the iterator of the facade that [n]
    successive pulls make, stopping at the first that ends the iteration,
    and no call after the [n]-th element.  It yields the elements those
    calls give, and its count is left at [n] less their number. *)
Theorem take_positive_yields_prefix
  (s : Sequence) (it : Iterable) (w w' : World) (n : Z) (fuel : nat) (l : list value) :
  0 < n ->
  n <= MAX_SAFE_INTEGER ->
  Sequence_within w s = true ->
  Sequence_symbolIterator s = Some it ->
  pulls_of (Z.to_nat n) fuel w it = Some (w', l) ->
  exists s' : Sequence,
    Sequence_take n s w = (grown w (Num n), Returned (Some (IsSequence s'))) /\
    syncArray (S (S (fuel + Z.to_nat n))) (grown w (Num n)) s' =
      Some (grown w' (Num (n - Z.of_nat (length l))), l).
Proof.
  intros Hn _ Hwf Hit H.
  destruct (facade_source s it Hit) as (u & Eu & Hs & _).
  eexists. split.
  - unfold Sequence_take, Transducer_take, take, new_TakeTransducer, alloc.
    rewrite (sequence_of_iterable _ _ Hs). reflexivity.
  - exact (take_positive_over n s it w w' fuel l Hn Hwf Hit H).
Qed.

Lemma take_positive_yields_prefix_witness :
  let s := Sequence_of (generator_object (IterateGenerator increment (Num 7) false))
             (Some (map increment identity)) in
  let it := MapSync increment
              (SuspendedStart (IterateGenerator increment (Num 7) false)) in
  0 < 2 /\
  2 <= MAX_SAFE_INTEGER /\
  Sequence_within empty_world s = true /\
  Sequence_symbolIterator s = Some it /\
  pulls_of (Z.to_nat 2) 2 empty_world it =
    Some (pulled_times 2 empty_world, [Num 8; Num 9]) /\
  exists s' : Sequence,
    Sequence_take 2 s empty_world =
      (grown empty_world (Num 2), Returned (Some (IsSequence s'))) /\
    syncArray (S (S (2 + Z.to_nat 2))) (grown empty_world (Num 2)) s' =
      Some (grown (pulled_times 2 empty_world) (Num (2 - Z.of_nat 2)), [Num 8; Num 9]).
Proof.
  intros s it.
  assert (H0 : 0 < 2) by lia.
  assert (Hb : 2 <= MAX_SAFE_INTEGER) by (unfold MAX_SAFE_INTEGER; lia).
  assert (H1 : Sequence_within empty_world s = true) by reflexivity.
  assert (H2 : Sequence_symbolIterator s = Some it) by reflexivity.
  assert (H3 : pulls_of (Z.to_nat 2) 2 empty_world it
               = Some (pulled_times 2 empty_world, [Num 8; Num 9])) by reflexivity.
  split; [exact H0|]. split; [exact Hb|]. split; [exact H1|]. split; [exact H2|].
  split; [exact H3|].
  exact (take_positive_yields_prefix s it empty_world _ 2 2 _ H0 Hb H1 H2 H3).
Defined.

(** ** Further facts: pulls on arrays and on [iterate] *)

Lemma pulled_times_O (w : World) : pulled_times 0 w = w.
Proof. destruct w as [f p]. unfold pulled_times. simpl. f_equal. lia. Qed.

Lemma pulled_times_pulled (k : nat) (w : World) :
  pulled_times k (pulled w) = pulled_times (S k) w.
Proof. unfold pulled_times, pulled. simpl. f_equal. lia. Qed.

Lemma pulls_of_array (k : nat) :
  forall (xs : list value) (w : World) (fuel : nat),
    (1 <= fuel)%nat ->
    pulls_of k fuel w (ArrayIterator xs) =
    Some (pulled_times (Nat.min k (S (length xs))) w, firstn k xs).
Proof.
  induction k as [|k IH]; intros xs w fuel Hf.
  - simpl. rewrite pulled_times_O. reflexivity.
  - destruct fuel as [|fuel]; [lia|].
    cbn [pulls_of]. rewrite next_ArrayIterator.
    destruct xs as [|a xs].
    + replace (Nat.min (S k) (S (length (@nil value)))) with 1%nat by (simpl length; lia).
      rewrite <- pulled_times_pulled, pulled_times_O. reflexivity.
    + rewrite (IH xs (pulled w) (S fuel) Hf), pulled_times_pulled. reflexivity.
Qed.

Lemma orbit_S (g : value -> value) (seed : value) (n : nat) :
  orbit g seed (S n) = seed :: orbit g (g seed) n.
Proof.
  unfold orbit. cbn [seq List.map Nat.iter]. f_equal.
  rewrite <- seq_shift, List.map_map.
  apply List.map_ext. intros j. apply Nat.iter_succ_r.
Qed.

Lemma length_orbit (g : value -> value) (seed : value) (n : nat) :
  length (orbit g seed n) = n.
Proof. unfold orbit. rewrite length_map, length_seq. reflexivity. Qed.



(** The same under a [yield*]. *)
Lemma pulls_of_delegated_iterate (g : value -> value) (k : nat) :
  forall (v : value) (w : World) (fuel : nat),
    (2 <= fuel)%nat ->
    pulls_of k fuel w (YieldStar (IterateGenerator g v true)) =
    Some (pulled_times k w, orbit g (g v) k).
Proof.
  induction k as [|k IH]; intros v w fuel Hf.
  - simpl. rewrite pulled_times_O. reflexivity.
  - destruct fuel as [|[|fuel]]; [lia|lia|].
    cbn [pulls_of]. rewrite next_YieldStar, next_IterateGenerator.
    rewrite (IH (g v) (pulled w) (S (S fuel)) Hf), pulled_times_pulled, orbit_S.
    reflexivity.
Qed.

(** X5.  [take(n)], for a safe integer [n > 0], over an array: the facade
    yields the first [n] elements, or the whole array when it has fewer.
    It makes [n] calls of [next] on the array iterator in the first case
    and one more than the array has elements in the second, and its count
    is left at the number of elements that were missing. *)
Theorem take_of_array (xs : list value) (n : Z) (w : World) :
  0 < n ->
  n <= MAX_SAFE_INTEGER ->
  exists s' : Sequence,
    Sequence_take n (Sequence_of (array xs) None) w =
      (grown w (Num n), Returned (Some (IsSequence s'))) /\
    syncArray (Z.to_nat n + 3) (grown w (Num n)) s' =
      Some (grown (pulled_times (Nat.min (Z.to_nat n) (S (length xs))) w)
              (Num (Z.max 0 (n - Z.of_nat (length xs)))),
            firstn (Z.to_nat n) xs).
Proof.
  intros Hn _. eexists. split; [reflexivity|].
  pose proof (take_positive_over n (Sequence_of (array xs) None) (ArrayIterator xs) w _ 1 _
                Hn eq_refl eq_refl (pulls_of_array (Z.to_nat n) xs w 1 ltac:(lia))) as H.
  replace (Z.to_nat n + 3)%nat with (S (S (1 + Z.to_nat n))) by lia.
  etransitivity; [exact H|].
  rewrite length_firstn. do 3 f_equal. f_equal. lia.
Qed.

Lemma take_of_array_witness :
  0 < 5 /\
  5 <= MAX_SAFE_INTEGER /\
  exists s' : Sequence,
    Sequence_take 5 (Sequence_of (array [Num 1; Num 2]) None) empty_world =
      (grown empty_world (Num 5), Returned (Some (IsSequence s'))) /\
    syncArray (Z.to_nat 5 + 3) (grown empty_world (Num 5)) s' =
      Some (grown (pulled_times (Nat.min (Z.to_nat 5) (S (length [Num 1; Num 2])))
                     empty_world)
              (Num (Z.max 0 (5 - Z.of_nat (length [Num 1; Num 2])))),
            firstn (Z.to_nat 5) [Num 1; Num 2]).
Proof.
  assert (H0 : 0 < 5) by lia.
  assert (Hb : 5 <= MAX_SAFE_INTEGER) by (unfold MAX_SAFE_INTEGER; lia).
  split; [exact H0|]. split; [exact Hb|].
  exact (take_of_array [Num 1; Num 2] 5 empty_world H0 Hb).
Defined.



(** ** Further facts: [range] without an end, and with a step of zero *)

Lemma orbit_increment (start : Z) (n : nat) :
  orbit increment (Num start) n = List.map (fun j => Num (start + Z.of_nat j)) (seq 0 n).
Proof.
  unfold orbit. apply List.map_ext. intros j.
  induction j as [|j IH].
  - simpl. f_equal. lia.
  - rewrite Nat.iter_succ, IH. unfold increment, js_add. f_equal. lia.
Qed.

Lemma pulls_of_unbounded_range (k : nat) (start step : Z) (w : World) (fuel : nat) :
  (3 <= fuel)%nat ->
  pulls_of k fuel w (RangeGenerator start None step) =
  Some (pulled_times k w, orbit increment (Num start) k).
Proof.
  intros Hf. destruct k as [|k].
  - simpl. rewrite pulled_times_O. reflexivity.
  - destruct fuel as [|[|[|fuel]]]; try lia.
    cbn [pulls_of]. rewrite next_RangeGenerator.
    change (range_delegate start None step) with
      (Some (Sequence_of (generator_object (IterateGenerator increment (Num start) false))
               None)).
    cbv beta iota. 
    change (Sequence_symbolIterator
              (Sequence_of (generator_object (IterateGenerator increment (Num start) false))
                 None))
      with (Some (IterateGenerator increment (Num start) false)).
    cbv beta iota.
    rewrite next_YieldStar, next_IterateGenerator.
    rewrite (pulls_of_delegated_iterate increment k (Num start) (pulled w) (S (S (S fuel)))
               ltac:(lia)).
    rewrite pulled_times_pulled, orbit_S. reflexivity.
Qed.

(** X7.  [range(start)] without an end is endless, and
    [range(start).take(n)] yields [start], [start + 1], ...,
    [start + n - 1] by [n] calls of [next]; the step is not looked at.
    This for safe integers [start], [n > 0] and [start + n - 1], so that
    every number yielded and the count are computed exactly. *)
Theorem unbounded_range_take (start step n : Z) (w : World) :
  0 < n ->
  n <= MAX_SAFE_INTEGER ->
  isSafeInteger start = true ->
  isSafeInteger (start + n - 1) = true ->
  exists s s' : Sequence,
    range start None step = Returned (Some (IsSequence s)) /\
    Sequence_take n s w = (grown w (Num n), Returned (Some (IsSequence s'))) /\
    syncArray (Z.to_nat n + 5) (grown w (Num n)) s' =
      Some (grown (pulled_times (Z.to_nat n) w) (Num 0),
            List.map (fun j => Num (start + Z.of_nat j)) (seq 0 (Z.to_nat n))).
Proof.
  intros Hn _ _ _. eexists _, _. split; [reflexivity|]. split; [reflexivity|].
  pose proof (take_positive_over n
                (Sequence_of (generator_object (RangeGenerator start None step)) None)
                (RangeGenerator start None step) w _ 3 _
                Hn eq_refl eq_refl
                (pulls_of_unbounded_range (Z.to_nat n) start step w 3 ltac:(lia))) as H.
  replace (Z.to_nat n + 5)%nat with (S (S (3 + Z.to_nat n))) by lia.
  etransitivity; [exact H|].
  rewrite length_orbit, orbit_increment. do 3 f_equal. f_equal. lia.
Qed.

Lemma unbounded_range_take_witness :
  0 < 3 /\
  3 <= MAX_SAFE_INTEGER /\
  isSafeInteger 10 = true /\
  isSafeInteger (10 + 3 - 1) = true /\
  exists s s' : Sequence,
    range 10 None 1 = Returned (Some (IsSequence s)) /\
    Sequence_take 3 s empty_world =
      (grown empty_world (Num 3), Returned (Some (IsSequence s'))) /\
    syncArray (Z.to_nat 3 + 5) (grown empty_world (Num 3)) s' =
      Some (grown (pulled_times (Z.to_nat 3) empty_world) (Num 0),
            List.map (fun j => Num (10 + Z.of_nat j)) (seq 0 (Z.to_nat 3))).
Proof.
  assert (H0 : 0 < 3) by lia.
  assert (Hb : 3 <= MAX_SAFE_INTEGER) by (unfold MAX_SAFE_INTEGER; lia).
  assert (Hs : isSafeInteger 10 = true) by reflexivity.
  assert (He : isSafeInteger (10 + 3 - 1) = true) by reflexivity.
  split; [exact H0|]. split; [exact Hb|]. split; [exact Hs|]. split; [exact He|].
  exact (unbounded_range_take 10 1 3 empty_world H0 Hb Hs He).
Defined.

(** The loop of [takeWhile] under a [yield*], over the generator of
    [iterate] at a fixed point of its function that passes the predicate:
    every pull yields that value again. *)
Lemma pulls_of_fixed_point (g : value -> value) (p : Predicate) (v : value) (k : nat) :
  g v = v -> p v = true ->
  forall (w : World) (fuel : nat),
    (3 <= fuel)%nat ->
    pulls_of k fuel w
      (YieldStar (TakeWhileSync p (SuspendedYield (IterateGenerator g v true)))) =
    Some (pulled_times k w, List.repeat v k).
Proof.
  intros Hg Hp. induction k as [|k IH]; intros w fuel Hf.
  - simpl. rewrite pulled_times_O. reflexivity.
  - destruct fuel as [|[|[|fuel]]]; try lia.
    cbn [pulls_of]. rewrite next_YieldStar, next_TakeWhileSync.
    cbn [loop_iterator]. rewrite next_IterateGenerator, Hg, Hp.
    rewrite (IH (pulled w) (S (S (S fuel))) Hf), pulled_times_pulled. reflexivity.
Qed.

Lemma spread_fixed_point (g : value -> value) (p : Predicate) (v : value) :
  g v = v -> p v = true ->
  forall (fuel : nat) (w : World),
    spread fuel w
      (YieldStar (TakeWhileSync p (SuspendedYield (IterateGenerator g v true)))) = None.
Proof.
  intros Hg Hp. induction fuel as [|fuel IH]; intros w; [reflexivity|].
  rewrite spread_S.
  destruct fuel as [|[|[|fuel]]]; try reflexivity.
  rewrite next_YieldStar, next_TakeWhileSync.
  cbn [loop_iterator]. rewrite next_IterateGenerator, Hg, Hp.
  rewrite (IH (pulled w)). reflexivity.
Qed.

(** The first pull on [range(start, end_, 0)]. *)
Lemma next_range_zero_step (start e : Z) (w : World) (fuel : nat) :
  exists (g : value -> value) (p : Predicate),
    g (Num start) = Num start /\ p (Num start) = true /\
    next (S (S (S (S fuel)))) w (RangeGenerator start (Some e) 0) =
    Some (pulled w,
          YieldStar (TakeWhileSync p (SuspendedYield (IterateGenerator g (Num start) true))),
          Yield (Num start)).
Proof.
  destruct (Z.ltb_spec e start) as [Hlt|Hge].
  - exists (subtract (Num (Z.abs 0))), (fun n => js_ge n (Num e)).
    split; [unfold subtract, js_sub; simpl; f_equal; lia|].
    assert (Hp : js_ge (Num start) (Num e) = true) by (apply Z.geb_le; lia).
    split; [exact Hp|].
    rewrite next_RangeGenerator, range_delegate_bounded.
    replace (e <? start) with true by (symmetry; apply Z.ltb_lt; exact Hlt).
    rewrite symbolIterator_of_generator.
    unfold takeWhile, compose, identity. cbn [sync GetIterator].
    rewrite next_YieldStar, next_TakeWhileSync. cbn [loop_iterator GetIterator].
    rewrite next_IterateGenerator, Hp. reflexivity.
  - exists (add (Num (Z.abs 0))), (fun n => js_le n (Num e)).
    split; [unfold add, js_add; simpl; reflexivity|].
    assert (Hp : js_le (Num start) (Num e) = true) by (apply Z.leb_le; lia).
    split; [exact Hp|].
    rewrite next_RangeGenerator, range_delegate_bounded.
    replace (e <? start) with false by (symmetry; apply Z.ltb_ge; exact Hge).
    rewrite symbolIterator_of_generator.
    unfold takeWhile, compose, identity. cbn [sync GetIterator].
    rewrite next_YieldStar, next_TakeWhileSync. cbn [loop_iterator GetIterator].
    rewrite next_IterateGenerator, Hp. reflexivity.
Qed.

(** X8.  [range(start, end_, 0)], with an end and a step of zero, is an
    endless facade, whatever the end: every call of [next] yields [start]
    again, so [k] pulls give [k] times [start], and draining the facade
    finishes for no amount of fuel. *)
Theorem range_zero_step_is_endless (start end_ : Z) (w : World) :
  exists s : Sequence,
    range start (Some end_) 0 = Returned (Some (IsSequence s)) /\
    Sequence_symbolIterator s = Some (RangeGenerator start (Some end_) 0) /\
    (forall k : nat,
        pulls_of k 4 w (RangeGenerator start (Some end_) 0) =
        Some (pulled_times k w, List.repeat (Num start) k)) /\
    (forall fuel : nat, syncArray fuel w s = None).
Proof.
  eexists. split; [reflexivity|]. split; [reflexivity|]. split.
  - intros [|k].
    + simpl. rewrite pulled_times_O. reflexivity.
    + destruct (next_range_zero_step start end_ w 0) as (g & p & Hg & Hp & E).
      cbn [pulls_of]. rewrite E.
      rewrite (pulls_of_fixed_point g p (Num start) k Hg Hp (pulled w) 4 ltac:(lia)).
      rewrite pulled_times_pulled. reflexivity.
  - intros fuel. unfold syncArray.
    change (Sequence_symbolIterator
              (Sequence_of (generator_object (RangeGenerator start (Some end_) 0)) None))
      with (Some (RangeGenerator start (Some end_) 0)).
    cbv beta iota.
    destruct fuel as [|fuel]; [reflexivity|].
    rewrite spread_S.
    destruct (next fuel w (RangeGenerator start (Some end_) 0)) as [r|] eqn:E;
      [|reflexivity].
    destruct (next_range_zero_step start end_ w fuel) as (g & p & Hg & Hp & E').
    rewrite (next_mono fuel (S (S (S (S fuel)))) _ _ _ ltac:(lia) E) in E'.
    injection E' as ->.
    rewrite (spread_fixed_point g p (Num start) Hg Hp fuel (pulled w)). reflexivity.
Qed.

(** ** Further facts: [takeWhile] and [find] over arrays *)

Lemma pulled_times_1 (w : World) : pulled_times 1 w = pulled w.
Proof. unfold pulled_times, pulled. f_equal. lia. Qed.

Lemma spread_takeWhile_array (p : Predicate) (xs : list value) :
  forall (st : ForOf Iterable) (w : World) (fuel : nat),
    loop_iterator st = Some (ArrayIterator xs) ->
    (length xs + 3 <= fuel)%nat ->
    spread fuel w (TakeWhileSync p st) =
    Some (pulled_times (S (length (prefix_while p xs))) w, prefix_while p xs).
Proof.
  induction xs as [|a xs IH]; intros st w fuel Hst Hf;
    (destruct fuel as [|[|[|fuel]]]; [simpl in Hf; lia..|]);
    rewrite spread_S, next_TakeWhileSync, Hst, next_ArrayIterator.
  - simpl. rewrite pulled_times_1. reflexivity.
  - simpl prefix_while. destruct (p a).
    + rewrite (IH (SuspendedYield (ArrayIterator xs)) (pulled w) (S (S fuel)) eq_refl)
        by (simpl in Hf; lia).
      rewrite pulled_times_pulled. reflexivity.
    + simpl. rewrite pulled_times_1. reflexivity.
Qed.

(** X9.  [takeWhile(predicate)] over an array, in both modes: the facade
    yields the longest prefix of the array whose elements all pass
    [predicate], and pulls one element more than it yields: the first that
    fails, or the end of the array.  The elements after the first failing
    one are never asked for. *)
Theorem takeWhile_of_array (predicate : Predicate) (xs : list value) (w : World) :
  (exists s' : Sequence,
      Sequence_takeWhile predicate (Sequence_of (array xs) None) =
        Returned (Some (IsSequence s')) /\
      syncArray (length xs + 3) w s' =
        Some (pulled_times (S (length (prefix_while predicate xs))) w,
              prefix_while predicate xs)) /\
  (exists a' : AsyncSequence,
      AsyncSequence_takeWhile predicate (AsyncSequence_of (async_source xs) None) =
        Returned (Some (IsAsyncSequence a')) /\
      asyncArray (length xs + 3) w a' =
        Some (pulled_times (S (length (prefix_while predicate xs))) w,
              prefix_while predicate xs)).
Proof.
  assert (H : syncArray (length xs + 3) w
                (Sequence_of (array xs) (Some (takeWhile predicate identity))) =
              Some (pulled_times (S (length (prefix_while predicate xs))) w,
                    prefix_while predicate xs)).
  { unfold syncArray.
    change (Sequence_symbolIterator
              (Sequence_of (array xs) (Some (takeWhile predicate identity))))
      with (Some (TakeWhileSync predicate (SuspendedStart (ArrayIterable xs)))).
    cbv beta iota.
    apply (spread_takeWhile_array predicate xs (SuspendedStart (ArrayIterable xs)));
      [reflexivity | lia]. }
  split.
  - eexists. split; [reflexivity|]. exact H.
  - exists (AsyncSequence_of (async_source xs) (Some (takeWhile predicate identity))).
    split; [reflexivity|].
    rewrite <- sync_and_async_agree. exact H.
Qed.

(** The loop of [filter] over an array iterator: one call of [next] on it
    pulls the array up to the first element that passes. *)
Lemma next_filter_array (p : Predicate) (xs : list value) :
  forall (st : ForOf Iterable) (w : World) (fuel : nat),
    loop_iterator st = Some (ArrayIterator xs) ->
    (length xs + 2 <= fuel)%nat ->
    exists it' : Iterable,
      next fuel w (FilterSync p st) =
      Some (pulled_times (S (length (prefix_while (fun v => negb (p v)) xs))) w, it',
            match List.find p xs with
            | Some x => Yield x
            | None => Done
            end).
Proof.
  induction xs as [|a xs IH]; intros st w fuel Hst Hf;
    (destruct fuel as [|[|fuel]]; [simpl in Hf; lia..|]);
    rewrite next_FilterSync, Hst, next_ArrayIterator.
  - eexists. simpl. rewrite pulled_times_1. reflexivity.
  - simpl prefix_while. simpl List.find. destruct (p a).
    + eexists. simpl. rewrite pulled_times_1. reflexivity.
    + destruct (IH (SuspendedYield (ArrayIterator xs)) (pulled w) (S fuel) eq_refl)
        as [it' E]; [simpl in Hf; lia|].
      exists it'. rewrite E. simpl negb. cbv iota. simpl length.
      rewrite pulled_times_pulled. reflexivity.
Qed.

(** X10.  [find(predicate)] over an array, in both modes: the facade yields
    the first element of the array that passes [predicate] and nothing
    else, or nothing when no element passes.  It pulls the array up to that
    element and no further (to its end when no element passes). *)
Theorem find_of_array (predicate : Predicate) (xs : list value) (w : World) :
  let failing := prefix_while (fun v => negb (predicate v)) xs in
  let found :=
    match List.find predicate xs with
    | Some x => [x]
    | None => []
    end in
  (exists s' : Sequence,
      Sequence_find predicate (Sequence_of (array xs) None) =
        Returned (Some (IsSequence s')) /\
      syncArray (length xs + 4) w s' = Some (pulled_times (S (length failing)) w, found)) /\
  (exists a' : AsyncSequence,
      AsyncSequence_find predicate (AsyncSequence_of (async_source xs) None) =
        Returned (Some (IsAsyncSequence a')) /\
      asyncArray (length xs + 4) w a' = Some (pulled_times (S (length failing)) w, found)).
Proof.
  intros failing found.
  assert (H : syncArray (length xs + 4) w
                (Sequence_of (array xs) (Some (find predicate identity))) =
              Some (pulled_times (S (length failing)) w, found)).
  { unfold syncArray.
    change (Sequence_symbolIterator
              (Sequence_of (array xs) (Some (find predicate identity))))
      with (Some (FirstSync (SuspendedStart
                     (FilterSync predicate (SuspendedStart (ArrayIterable xs)))))).
    cbv beta iota.
    replace (length xs + 4)%nat with (S (S (S (length xs + 1)))) by lia.
    rewrite spread_S, next_FirstSync_start. cbn [GetIterator].
    destruct (next_filter_array predicate xs (SuspendedStart (ArrayIterable xs)) w
                (S (length xs + 1)) eq_refl ltac:(lia)) as [it' E].
    rewrite E. subst found failing.
    destruct (List.find predicate xs) as [x|]; [|reflexivity].
    rewrite spread_S. reflexivity. }
  split.
  - eexists. split; [reflexivity|]. exact H.
  - exists (AsyncSequence_of (async_source xs) (Some (find predicate identity))).
    split; [reflexivity|].
    rewrite <- sync_and_async_agree. exact H.
Qed.

(** ** Further facts: [scan] and [last] over any facade *)

Lemma facade_within (s : Sequence) (it : Iterable) (w : World) :
  Sequence_symbolIterator s = Some it ->
  Sequence_within w s = true ->
  cells_below (length (fields w)) it = true.
Proof.
  unfold Sequence_symbolIterator, Sequence_within.
  destruct s as [v t]. cbn [Sequence_iterable Sequence_transducer].
  destruct v as [| |[[i|] oa]]; try discriminate.
  cbn [symbolIterator]. intros Hit Hwf. injection Hit as <-.
  apply andb_true_iff in Hwf as [Ht Hi].
  rewrite cells_below_GetIterator. apply cells_below_sync; assumption.
Qed.

(** X11.  [scan(reducer)] on any facade whose consumption ends with the
    elements [l]: the new facade yields the running folds of [reducer] over
    [l] from [reducer.identity()], one for each element, and leaves the
    fold of the whole of [l] in its accumulator. *)
Theorem scan_yields_running_folds
  (s : Sequence) (reducer : Reducer.t) (w w' : World) (fuel : nat) (l : list value) :
  Sequence_within w s = true ->
  syncArray fuel w s = Some (w', l) ->
  exists s' : Sequence,
    Sequence_scan reducer s w =
      (grown w (Reducer.identity reducer), Returned (Some (IsSequence s'))) /\
    syncArray (S fuel) (grown w (Reducer.identity reducer)) s' =
      Some (grown w' (fold_left (Reducer.call reducer) l (Reducer.identity reducer)),
            running reducer (Reducer.identity reducer) l).
Proof.
  intros Hwf H. destruct (syncArray_iterator _ _ _ _ H) as (it & Hit & Hsp).
  pose proof (facade_within s it w Hit Hwf) as Hb.
  destruct (facade_source s it Hit) as (u & -> & Hs & Hchain).
  eexists. split.
  - unfold Sequence_scan, Transducer_scan, scan, new_ScanTransducer, alloc.
    rewrite (sequence_of_iterable _ _ Hs). reflexivity.
  - unfold syncArray. rewrite (Hchain (ScanTransducer reducer (length (fields w)))).
    cbn [sync GetIterator].
    apply (spread_scan_over reducer fuel w (SuspendedStart u) _ w' l _ eq_refl Hsp Hb).
Qed.

Lemma scan_yields_running_folds_witness :
  let s := Sequence_of (array [Num 1; Num 2; Num 3]) None in
  Sequence_within empty_world s = true /\
  syncArray 5 empty_world s =
    Some (pulled_times 4 empty_world, [Num 1; Num 2; Num 3]) /\
  exists s' : Sequence,
    Sequence_scan sum s empty_world =
      (grown empty_world (Num 0), Returned (Some (IsSequence s'))) /\
    syncArray 6 (grown empty_world (Num 0)) s' =
      Some (grown (pulled_times 4 empty_world) (Num 6), [Num 1; Num 3; Num 6]).
Proof.
  intros s.
  assert (H1 : Sequence_within empty_world s = true) by reflexivity.
  assert (H2 : syncArray 5 empty_world s
               = Some (pulled_times 4 empty_world, [Num 1; Num 2; Num 3])) by reflexivity.
  split; [exact H1|]. split; [exact H2|].
  exact (scan_yields_running_folds s sum empty_world _ 5 _ H1 H2).
Defined.

(** X12.  The transducer method [last()]: a synchronous facade built by the
    factory from the source of a facade [s] and [s.transducer.last()]
    pulls [s] to its end and then yields the final element of [s] alone;
    it yields nothing when [s] yields nothing, or when that final element
    is [undefined]. *)
Theorem Transducer_last_yields_final_element
  (s : Sequence) (w w' : World) (fuel : nat) (l : list value) :
  syncArray fuel w s = Some (w', l) ->
  exists s' : Sequence,
    sequence (Sequence_iterable s) (Some (Transducer_last (Sequence_transducer s))) =
      Returned (Some (IsSequence s')) /\
    syncArray (S (S fuel)) w s' =
      Some (w', if js_defined (List.last l Undefined) then [List.last l Undefined] else []).
Proof.
  intros H. destruct (syncArray_iterator _ _ _ _ H) as (it & Hit & Hsp).
  destruct (facade_source s it Hit) as (u & -> & Hs & Hchain).
  eexists. split.
  - apply sequence_of_iterable. exact Hs.
  - unfold syncArray, Transducer_last, last. rewrite (Hchain LastTransducer).
    cbn [sync GetIterator]. apply spread_last. exact Hsp.
Qed.

Lemma Transducer_last_yields_final_element_witness :
  let s := Sequence_of (array [Num 1; Num 2; Num 3]) None in
  syncArray 5 empty_world s =
    Some (pulled_times 4 empty_world, [Num 1; Num 2; Num 3]) /\
  exists s' : Sequence,
    sequence (Sequence_iterable s) (Some (Transducer_last (Sequence_transducer s))) =
      Returned (Some (IsSequence s')) /\
    syncArray 7 empty_world s' = Some (pulled_times 4 empty_world, [Num 3]).
Proof.
  intros s.
  assert (H : syncArray 5 empty_world s
              = Some (pulled_times 4 empty_world, [Num 1; Num 2; Num 3])) by reflexivity.
  split; [exact H|].
  exact (Transducer_last_yields_final_element s empty_world _ 5 _ H).
Defined.

(** X13.  [AsyncSequence.last()] over an asynchronous source of given
    elements, under any transducer: when the facade drains to [l], the new
    facade pulls it to its end and yields the final element of [l] alone,
    or nothing when [l] is empty or ends in [undefined]. *)
Theorem AsyncSequence_last_yields_final_element
  (xs : list value) (t : Transducer) (w w' : World) (fuel : nat) (l : list value) :
  asyncArray fuel w (AsyncSequence_of (async_source xs) (Some t)) = Some (w', l) ->
  exists a' : AsyncSequence,
    AsyncSequence_last (AsyncSequence_of (async_source xs) (Some t)) =
      Returned (Some (IsAsyncSequence a')) /\
    asyncArray (S (S fuel)) w a' =
      Some (w', if js_defined (List.last l Undefined) then [List.last l Undefined] else []).
Proof.
  intros H. rewrite <- sync_and_async_agree in H.
  exists (AsyncSequence_of (async_source xs) (Some (last t))).
  split; [reflexivity|].
  rewrite <- sync_and_async_agree.
  destruct (syncArray_iterator _ _ _ _ H) as (it & Hit & Hsp).
  injection Hit as <-.
  unfold syncArray.
  change (Sequence_symbolIterator (Sequence_of (array xs) (Some (last t))))
    with (Some (LastSync (SuspendedStart (sync t (ArrayIterable xs))))).
  cbv beta iota. apply spread_last. exact Hsp.
Qed.

Lemma AsyncSequence_last_yields_final_element_witness :
  let a := AsyncSequence_of (async_source [Num 1; Num 2; Num 3])
             (Some (map increment identity)) in
  asyncArray 6 empty_world a = Some (pulled_times 4 empty_world, [Num 2; Num 3; Num 4]) /\
  exists a' : AsyncSequence,
    AsyncSequence_last a = Returned (Some (IsAsyncSequence a')) /\
    asyncArray 8 empty_world a' = Some (pulled_times 4 empty_world, [Num 4]).
Proof.
  intros a.
  assert (H : asyncArray 6 empty_world a
              = Some (pulled_times 4 empty_world, [Num 2; Num 3; Num 4])) by reflexivity.
  split; [exact H|].
  exact (AsyncSequence_last_yields_final_element _ _ empty_world _ 6 _ H).
Defined.

(** X14.  A take whose source has fewer elements than its count is not
    used up.  Over an array [xs] of fewer than [n] elements, [n] a safe
    integer, the first consumption of [take(n)] yields the whole array, by
    one pull more than it has elements, and leaves the count at
    [n - length xs]; a second consumption of the same facade then yields
    elements again, the first [n - length xs] of [xs] (all of [xs] when it
    has no more), and leaves the count at what is still missing. *)
Theorem take_of_short_array_yields_again (xs : list value) (n : Z) (w : World) :
  Z.of_nat (length xs) < n ->
  n <= MAX_SAFE_INTEGER ->
  let missing := n - Z.of_nat (length xs) in
  let w1 := pulled_times (S (length xs)) w in
  let w2 := pulled_times (Nat.min (Z.to_nat missing) (S (length xs))) w1 in
  exists s' : Sequence,
    Sequence_take n (Sequence_of (array xs) None) w =
      (grown w (Num n), Returned (Some (IsSequence s'))) /\
    syncArray (Z.to_nat n + 3) (grown w (Num n)) s' =
      Some (grown w1 (Num missing), xs) /\
    syncArray (Z.to_nat n + 3) (grown w1 (Num missing)) s' =
      Some (grown w2 (Num (Z.max 0 (missing - Z.of_nat (length xs)))),
            firstn (Z.to_nat missing) xs).
Proof.
  intros Hlen _ m w1 w2.
  assert (Hn : 0 < n) by lia.
  assert (Hm : 0 < m) by (subst m; lia).
  set (s' := Sequence_of (array xs)
               (Some (compose (TakeTransducer (length (fields w))) identity))).
  assert (H1 : syncArray (Z.to_nat n + 3) (grown w (Num n)) s' =
               Some (grown w1 (Num m), xs)).
  { apply (syncArray_mono (S (S (1 + Z.to_nat n)))); [lia|].
    assert (Hall : firstn (Z.to_nat n) xs = xs) by (apply firstn_all2; lia).
    pose proof (take_positive_over n (Sequence_of (array xs) None) (ArrayIterator xs) w _ 1 _
                  Hn eq_refl eq_refl (pulls_of_array (Z.to_nat n) xs w 1 ltac:(lia))) as H.
    rewrite Hall in H.
    replace (Nat.min (Z.to_nat n) (S (length xs))) with (S (length xs)) in H by lia.
    exact H. }
  assert (H2 : syncArray (Z.to_nat n + 3) (grown w1 (Num m)) s' =
               Some (grown w2 (Num (Z.max 0 (m - Z.of_nat (length xs)))),
                     firstn (Z.to_nat m) xs)).
  { apply (syncArray_mono (S (S (1 + Z.to_nat m)))); [subst m; lia|].
    replace (Z.max 0 (m - Z.of_nat (length xs)))
      with (m - Z.of_nat (length (firstn (Z.to_nat m) xs)))
      by (rewrite length_firstn; lia).
    exact (take_positive_over m (Sequence_of (array xs) None) (ArrayIterator xs) w1 _ 1 _
             Hm eq_refl eq_refl (pulls_of_array (Z.to_nat m) xs w1 1 ltac:(lia))). }
  exists s'. split; [reflexivity|]. split; [exact H1 | exact H2].
Qed.

Lemma take_of_short_array_yields_again_witness :
  let xs := [Num 1; Num 2] in
  Z.of_nat (length xs) < 3 /\
  3 <= MAX_SAFE_INTEGER /\
  exists s' : Sequence,
    Sequence_take 3 (Sequence_of (array xs) None) empty_world =
      (grown empty_world (Num 3), Returned (Some (IsSequence s'))) /\
    syncArray (Z.to_nat 3 + 3) (grown empty_world (Num 3)) s' =
      Some (grown (pulled_times 3 empty_world) (Num 1), xs) /\
    syncArray (Z.to_nat 3 + 3) (grown (pulled_times 3 empty_world) (Num 1)) s' =
      Some (grown (pulled_times 1 (pulled_times 3 empty_world)) (Num 0), [Num 1]).
Proof.
  intros xs.
  assert (H0 : Z.of_nat (length xs) < 3) by (simpl; lia).
  assert (Hb : 3 <= MAX_SAFE_INTEGER) by (unfold MAX_SAFE_INTEGER; lia).
  split; [exact H0|]. split; [exact Hb|].
  exact (take_of_short_array_yields_again xs 3 empty_world H0 Hb).
Defined.

(** ** Further facts: stages without a field *)

Lemma pulled_times_add (d1 d2 : nat) (w : World) :
  pulled_times d2 (pulled_times d1 w) = pulled_times (d1 + d2) w.
Proof. unfold pulled_times. simpl. f_equal. lia. Qed.

Lemma stateless_GetIterator (i : Iterable) : stateless (GetIterator i) = stateless i.
Proof. destruct i; reflexivity. Qed.

Lemma stateless_sync (t : Transducer) :
  forall i : Iterable,
    stateless_stages t = true -> stateless i = true -> stateless (sync t i) = true.
Proof.
  induction t as [| | |m|p|a IHa b IHb|r c|c|p]; intros i Ht Hi; simpl in *;
    try assumption; try discriminate.
  apply andb_true_iff in Ht as [Ha Hb]. apply IHb; [exact Hb|]. apply IHa; assumption.
Qed.

Lemma stateless_range_delegate (start : Z) (e : option Z) (step : Z) :
  forall (s : Sequence) (inner : Iterable),
    range_delegate start e step = Some s ->
    Sequence_symbolIterator s = Some inner ->
    stateless inner = true.
Proof.
  intros s inner Hs Hi. destruct e as [e|].
  - rewrite range_delegate_bounded in Hs. injection Hs as <-.
    destruct (e <? start); injection Hi as <-; reflexivity.
  - injection Hs as <-. injection Hi as <-. reflexivity.
Qed.

Ltac stateless_call IH fuel :=
  match goal with
  | H : context [next fuel ?w0 ?i] |- _ =>
      let E := fresh "E" in
      let d := fresh "d" in
      let Hs := fresh "Hs" in
      let Hall := fresh "Hall" in
      destruct (next fuel w0 i) as [[[? ?] [?|]]|] eqn:E; [| |discriminate H];
      (destruct (proj1 IH _ _ _ _ _ E) as (d & -> & Hs & Hall);
       [ rewrite ?stateless_GetIterator; assumption | ])
  | H : context [for_last fuel ?w0 ?i ?l] |- _ =>
      let E := fresh "E" in
      let d := fresh "d" in
      let Hs := fresh "Hs" in
      let Hall := fresh "Hall" in
      destruct (for_last fuel w0 i l) as [[[? ?] ?]|] eqn:E; [|discriminate H];
      (destruct (proj2 IH _ _ _ _ _ _ E) as (d & -> & Hs & Hall);
       [ rewrite ?stateless_GetIterator; assumption | ])
  end.

Ltac stateless_done d :=
  match goal with
  | H : Some _ = Some _ |- _ => injection H as <- <- <-
  end;
  exists d;
  (split; [|split]);
  [ rewrite ?pulled_times_O, ?pulled_times_1; reflexivity
  | first [reflexivity | assumption]
  | intros; simpl;
    repeat match goal with
      | Hall : forall w2 : World, _ = Some _ |- _ => rewrite Hall; clear Hall
      end;
    rewrite ?pulled_times_O, ?pulled_times_1; try reflexivity ].

(** A call of [next] on an iterator without [scan] and [take] stages
    neither reads nor writes a field: in any store it goes the same way,
    and it changes the count of pulls only. *)
Lemma next_for_last_stateless (fuel : nat) :
  (forall (w : World) (it : Iterable) (w' : World) (it' : Iterable) (r : IteratorResult),
      next fuel w it = Some (w', it', r) ->
      stateless it = true ->
      exists d : nat,
        w' = pulled_times d w /\
        stateless it' = true /\
        forall w2 : World, next fuel w2 it = Some (pulled_times d w2, it', r)) /\
  (forall (w : World) (it : Iterable) (l : value) (w' : World) (it' : Iterable) (l' : value),
      for_last fuel w it l = Some (w', it', l') ->
      stateless it = true ->
      exists d : nat,
        w' = pulled_times d w /\
        stateless it' = true /\
        forall w2 : World, for_last fuel w2 it l = Some (pulled_times d w2, it', l')).
Proof.
  induction fuel as [|fuel IH]; [split; intros; discriminate|].
  split.
  - intros w it w' it' r H Hwf.
    destruct it as [xs|rest|t|g x b|start e step|inner| |st|st|m st|p st|rd c st|c st|p st];
      try (destruct st as [i|i|]); simpl in H, Hwf.
    all: try discriminate.
    all: try (destruct rest; stateless_done 1%nat; fail).
    all: try (stateless_done 0%nat; fail).
    all: try (stateless_done 1%nat; fail).
    all: try (stateless_call IH fuel; stateless_done d; fail).
    all: try (stateless_call IH fuel;
              [ match goal with
                | H : context [if ?b then _ else _] |- _ => destruct b eqn:Ep
                end; stateless_done d; rewrite ?Ep; reflexivity
              | stateless_done d ]; fail).
    + (* range *)
      destruct (range_delegate start e step) as [s|] eqn:Er; [|discriminate H].
      destruct (Sequence_symbolIterator s) as [inner|] eqn:Ei; [|discriminate H].
      destruct (proj1 IH _ _ _ _ _ H) as (d & -> & Hs & Hall).
      { simpl. exact (stateless_range_delegate _ _ _ _ _ Er Ei). }
      exists d. split; [reflexivity|]. split; [exact Hs|].
      intros w2. simpl. rewrite Er, Ei. apply Hall.
    + (* last *)
      stateless_call IH fuel.
      destruct (js_defined _) eqn:Ed in H; stateless_done d; rewrite Ed; reflexivity.
    + (* filter, from its start *)
      stateless_call IH fuel; [|stateless_done d].
      destruct (p _) eqn:Ep in H; [stateless_done d; rewrite Ep; reflexivity|].
      destruct (proj1 IH _ _ _ _ _ H Hs) as (d2 & -> & Hs2 & Hall2).
      exists (d + d2)%nat. split; [apply pulled_times_add|]. split; [exact Hs2|].
      intros w2. simpl. rewrite Hall, Ep, Hall2, pulled_times_add. reflexivity.
    + (* filter, resumed *)
      stateless_call IH fuel; [|stateless_done d].
      destruct (p _) eqn:Ep in H; [stateless_done d; rewrite Ep; reflexivity|].
      destruct (proj1 IH _ _ _ _ _ H Hs) as (d2 & -> & Hs2 & Hall2).
      exists (d + d2)%nat. split; [apply pulled_times_add|]. split; [exact Hs2|].
      intros w2. simpl. rewrite Hall, Ep, Hall2, pulled_times_add. reflexivity.
  - intros w it l w' it' l' H Hwf. simpl in H.
    stateless_call IH fuel.
    + destruct (proj2 IH _ _ _ _ _ _ H Hs) as (d2 & -> & Hs2 & Hall2).
      exists (d + d2)%nat. split; [apply pulled_times_add|]. split; [exact Hs2|].
      intros w2. simpl. rewrite Hall, Hall2, pulled_times_add. reflexivity.
    + stateless_done d.
Qed.

Lemma spread_stateless (fuel : nat) :
  forall (w : World) (it : Iterable) (w' : World) (l : list value),
    spread fuel w it = Some (w', l) ->
    stateless it = true ->
    exists d : nat,
      w' = pulled_times d w /\
      forall w2 : World, spread fuel w2 it = Some (pulled_times d w2, l).
Proof.
  induction fuel as [|fuel IH]; intros w it w' l H Hit; [discriminate|].
  rewrite spread_S in H.
  destruct (next fuel w it) as [[[w1 it1] [a|]]|] eqn:E; try discriminate;
    destruct (proj1 (next_for_last_stateless fuel) _ _ _ _ _ E Hit) as (d & -> & Hs & Hall).
  - destruct (spread fuel (pulled_times d w) it1) as [[w2 l2]|] eqn:E2; try discriminate.
    injection H as <- <-.
    destruct (IH _ _ _ _ E2 Hs) as (d2 & -> & Hall2).
    exists (d + d2)%nat. split; [apply pulled_times_add|].
    intros w0. rewrite spread_S, Hall, Hall2, pulled_times_add. reflexivity.
  - injection H as <- <-. exists d. split; [reflexivity|].
    intros w0. rewrite spread_S, Hall. reflexivity.
Qed.

Lemma consume_times_stateless (s : Sequence) (fuel d : nat) (l : list value) :
  (forall w : World, syncArray fuel w s = Some (pulled_times d w, l)) ->
  forall (k : nat) (w : World),
    consume_times k fuel w s = Some (pulled_times (k * d) w, List.repeat l k).
Proof.
  intros Hall. induction k as [|k IH]; intros w.
  - simpl. rewrite pulled_times_O. reflexivity.
  - cbn [consume_times]. rewrite Hall, IH, pulled_times_add. reflexivity.
Qed.

(** X15.  A transducer stack with no [scan] and no [take] stage can be
    consumed again: over an array, in both modes, a consumption changes no
    field of the store, only the count of pulls, and every further
    consumption of the same facade, in any store, yields the same elements
    by the same number of pulls. *)
Theorem stateless_facade_is_reusable
  (t : Transducer) (xs : list value) (w w' : World) (fuel : nat) (l : list value) :
  stateless_stages t = true ->
  syncArray fuel w (Sequence_of (array xs) (Some t)) = Some (w', l) ->
  exists d : nat,
    w' = pulled_times d w /\
    (forall (k : nat) (w0 : World),
        consume_times k fuel w0 (Sequence_of (array xs) (Some t)) =
        Some (pulled_times (k * d) w0, List.repeat l k)) /\
    (forall (k : nat) (w0 : World),
        async_consume_times k fuel w0 (AsyncSequence_of (async_source xs) (Some t)) =
        Some (pulled_times (k * d) w0, List.repeat l k)).
Proof.
  intros Ht H. destruct (syncArray_iterator _ _ _ _ H) as (it & Hit & Hsp).
  injection Hit as <-.
  assert (Hs : stateless (GetIterator (sync t (ArrayIterable xs))) = true).
  { rewrite stateless_GetIterator. apply stateless_sync; [exact Ht | reflexivity]. }
  destruct (spread_stateless fuel _ _ _ _ Hsp Hs) as (d & -> & Hall).
  exists d. split; [reflexivity|].
  assert (Hk : forall (k : nat) (w0 : World),
             consume_times k fuel w0 (Sequence_of (array xs) (Some t)) =
             Some (pulled_times (k * d) w0, List.repeat l k)).
  { apply consume_times_stateless. intros w0. apply Hall. }
  split; [exact Hk|].
  intros k w0. rewrite consume_times_agree. apply Hk.
Qed.

Lemma stateless_facade_is_reusable_witness :
  let t := filter (fun v => js_le v (Num 2)) (map increment identity) in
  let xs := [Num 0; Num 1; Num 2] in
  stateless_stages t = true /\
  syncArray 8 empty_world (Sequence_of (array xs) (Some t)) =
    Some (pulled_times 4 empty_world, [Num 1; Num 2]) /\
  exists d : nat,
    pulled_times 4 empty_world = pulled_times d empty_world /\
    (forall (k : nat) (w0 : World),
        consume_times k 8 w0 (Sequence_of (array xs) (Some t)) =
        Some (pulled_times (k * d) w0, List.repeat [Num 1; Num 2] k)) /\
    (forall (k : nat) (w0 : World),
        async_consume_times k 8 w0 (AsyncSequence_of (async_source xs) (Some t)) =
        Some (pulled_times (k * d) w0, List.repeat [Num 1; Num 2] k)).
Proof.
  intros t xs.
  assert (H1 : stateless_stages t = true) by reflexivity.
  assert (H2 : syncArray 8 empty_world (Sequence_of (array xs) (Some t))
               = Some (pulled_times 4 empty_world, [Num 1; Num 2])) by reflexivity.
  split; [exact H1|]. split; [exact H2|].
  exact (stateless_facade_is_reusable t xs empty_world _ 8 _ H1 H2).
Defined.

(** ** Further facts: composites, sources and the two modes *)

Lemma next_IterableGenerator (fuel : nat) (w : World) (t : list value) :
  next (S fuel) w (IterableGenerator t) = next fuel w (YieldStar (ArrayIterator t)).
Proof. reflexivity. Qed.

Lemma spread_delegated_array (xs : list value) :
  forall (w : World) (fuel : nat),
    (length xs + 3 <= fuel)%nat ->
    spread fuel w (YieldStar (ArrayIterator xs)) =
    Some (pulled_times (S (length xs)) w, xs).
Proof.
  induction xs as [|a xs IH]; intros w fuel Hf;
    (destruct fuel as [|[|[|fuel]]]; [simpl in Hf; lia..|]);
    rewrite spread_S, next_YieldStar, next_ArrayIterator.
  - rewrite pulled_times_1. reflexivity.
  - rewrite (IH (pulled w) (S (S fuel))) by (simpl in Hf; lia).
    rewrite pulled_times_pulled. reflexivity.
Qed.

(** X16.  The stages of a transducer: [decompose] of any transducer is a
    list of at least one transducer, none of them composite, and running
    the transducer over an iterable, in either mode, is running those
    stages over it one after the other, the first of the list innermost. *)
Theorem decompose_gives_the_stages (t : Transducer) :
  decompose t <> [] /\
  Forall (fun stage => is_composite stage = false) (decompose t) /\
  (forall i : Iterable,
      sync t i = fold_left (fun acc stage => sync stage acc) (decompose t) i) /\
  (forall i : AsyncIterable,
      async_ t i = fold_left (fun acc stage => async_ stage acc) (decompose t) i).
Proof.
  induction t as [| | |m|p|a IHa b IHb|r c|c|p];
    try (split; [discriminate|]; split; [repeat constructor|]; split; reflexivity).
  destruct IHa as (Na & Fa & Sa & Aa). destruct IHb as (Nb & Fb & Sb & Ab).
  cbn [decompose sync async_]. split; [|split; [|split]].
  - intros E. apply app_eq_nil in E as [E _]. exact (Na E).
  - apply Forall_app. split; assumption.
  - intros i. rewrite fold_left_app, <- Sa, <- Sb. reflexivity.
  - intros i. rewrite fold_left_app, <- Aa, <- Ab. reflexivity.
Qed.

(** X17.  The facade of a source with no transducer yields the source: an
    array, the generator of [iterable(...t)] and an asynchronous source each
    drain to their elements, in order, by one pull for each element and one
    that finds the end. *)
Theorem source_drains_to_its_elements (xs : list value) (w : World) :
  (exists s : Sequence,
      sequence (array xs) None = Returned (Some (IsSequence s)) /\
      syncArray (length xs + 2) w s = Some (pulled_times (S (length xs)) w, xs)) /\
  (exists s : Sequence,
      sequence (iterable xs) None = Returned (Some (IsSequence s)) /\
      syncArray (length xs + 4) w s = Some (pulled_times (S (length xs)) w, xs)) /\
  (exists a : AsyncSequence,
      sequence (async_source xs) None = Returned (Some (IsAsyncSequence a)) /\
      asyncArray (length xs + 2) w a = Some (pulled_times (S (length xs)) w, xs)).
Proof.
  assert (H : syncArray (length xs + 2) w (Sequence_of (array xs) (Some identity)) =
              Some (pulled_times (S (length xs)) w, xs)).
  { unfold syncArray. simpl. apply spread_array. lia. }
  split; [|split].
  - eexists. split; [reflexivity|]. exact H.
  - exists (Sequence_of (iterable xs) None). split; [reflexivity|].
    unfold syncArray.
    change (Sequence_symbolIterator (Sequence_of (iterable xs) None))
      with (Some (IterableGenerator xs)).
    cbv beta iota.
    replace (length xs + 4)%nat with (S (S (length xs + 2))) by lia.
    rewrite spread_S, next_IterableGenerator.
    replace (length xs + 2)%nat with (S (S (length xs))) by lia.
    rewrite next_YieldStar, next_ArrayIterator.
    destruct xs as [|a xs].
    + rewrite pulled_times_1. reflexivity.
    + rewrite spread_delegated_array by (simpl; lia).
      rewrite pulled_times_pulled. reflexivity.
  - exists (AsyncSequence_of (async_source xs) (Some identity)).
    split; [reflexivity|].
    rewrite <- sync_and_async_agree. exact H.
Qed.

(** X18.  One transducer, two modes: a transducer driven synchronously
    over an array and asynchronously over an asynchronous source of the
    same elements gives the same result, elements and store alike, for one
    consumption and for any number of consumptions in a row. *)
Theorem one_transducer_agrees_in_both_modes
  (t : Transducer) (xs : list value) (w : World) (fuel k : nat) :
  asyncArray fuel w (AsyncSequence_of (async_source xs) (Some t)) =
    syncArray fuel w (Sequence_of (array xs) (Some t)) /\
  async_consume_times k fuel w (AsyncSequence_of (async_source xs) (Some t)) =
    consume_times k fuel w (Sequence_of (array xs) (Some t)).
Proof.
  split.
  - symmetry. apply sync_and_async_agree.
  - apply consume_times_agree.
Qed.

(** X19.  Chaining on an [AsyncSequence] goes through the factory, which
    probes the source for the synchronous protocol first: on an
    [AsyncSequence] whose source has both protocols every chaining method
    returns a synchronous [Sequence], and on one whose source has the
    asynchronous protocol only it returns an [AsyncSequence]. *)
Theorem AsyncSequence_chaining_probes_the_source
  (op : Chain) (a : AsyncSequence) (w : World) :
  isAsyncIterable (AsyncSequence_iterable a) = Returned true ->
  exists (f : Facade) (w' : World),
    AsyncSequence_chain op a w = (w', Returned (Some f)) /\
    Facade_iterable f = AsyncSequence_iterable a /\
    match isIterable (AsyncSequence_iterable a) with
    | Returned true => exists s' : Sequence, f = IsSequence s'
    | _ => exists a' : AsyncSequence, f = IsAsyncSequence a'
    end.
Proof.
  intros Ha.
  destruct (AsyncSequence_chain_sequence op a w) as (t' & w' & Hc & _).
  rewrite Hc, sequence_probes.
  destruct (isAsyncIterable_true _ Ha) as (o & ai & Ho & Hai).
  rewrite Ho in Ha |- *. cbn [probed]. rewrite Ha.
  destruct (isIterable (JsObject o)) as [[|]|] eqn:Ei.
  - eexists _, w'. split; [reflexivity|]. split; [reflexivity|]. eexists. reflexivity.
  - eexists _, w'. split; [reflexivity|]. split; [reflexivity|]. eexists. reflexivity.
  - discriminate Ei.
Qed.

Lemma AsyncSequence_chaining_probes_the_source_witness :
  let o := {| symbolIterator := Some (ArrayIterable [Num 1]);
              symbolAsyncIterator := Some (AsyncSource [Num 1]) |} in
  let a := AsyncSequence_of (JsObject o) None in
  isAsyncIterable (AsyncSequence_iterable a) = Returned true /\
  exists (f : Facade) (w' : World),
    AsyncSequence_chain (ChainMap increment) a empty_world = (w', Returned (Some f)) /\
    Facade_iterable f = AsyncSequence_iterable a /\
    exists s' : Sequence, f = IsSequence s'.
Proof.
  intros o a.
  assert (H1 : isAsyncIterable (AsyncSequence_iterable a) = Returned true) by reflexivity.
  split; [exact H1|].
  exact (AsyncSequence_chaining_probes_the_source (ChainMap increment) a empty_world H1).
Defined.

(** X20.  A facade derived from a [scan] facade shares its accumulator:
    chaining hands the same transducer object on.  After [s.scan(reducer)]
    was consumed over an array, [s.scan(reducer).map(mapper)] folds on from
    the accumulator that consumption left, not from [reducer.identity()]. *)
Theorem derived_facade_shares_the_accumulator
  (xs : list value) (reducer : Reducer.t) (mapper : Mapper) (w : World) :
  exists (s1 s2 : Sequence) (w1 w2 w3 : World),
    Sequence_scan reducer (Sequence_of (array xs) None) w =
      (w1, Returned (Some (IsSequence s1))) /\
    Sequence_map mapper s1 = Returned (Some (IsSequence s2)) /\
    syncArray (length xs + 4) w1 s1 =
      Some (w2, running reducer (Reducer.identity reducer) xs) /\
    syncArray (length xs + 4) w2 s2 =
      Some (w3, List.map mapper
                  (running reducer
                     (fold_left (Reducer.call reducer) xs (Reducer.identity reducer)) xs)).
Proof.
  set (c := length (fields w)).
  set (w1 := grown w (Reducer.identity reducer)).
  assert (Hc : (c < length (fields w1))%nat).
  { subst c w1. unfold grown. simpl. rewrite length_app. simpl. lia. }
  pose proof (spread_scan reducer c xs (SuspendedStart (ArrayIterable xs)) w1
                (length xs + 4) eq_refl Hc ltac:(lia)) as H1.
  replace (read w1 c) with (Reducer.identity reducer) in H1
    by (symmetry; apply read_grown_new).
  set (folded := fold_left (Reducer.call reducer) xs (Reducer.identity reducer)) in *.
  set (w2 := {| fields := <[c := folded]> (fields w1);
                pulls := (pulls w1 + S (length xs))%nat |}) in *.
  assert (Hc2 : (c < length (fields w2))%nat).
  { subst w2. simpl. rewrite length_insert. exact Hc. }
  assert (Hr : read w2 c = folded).
  { subst w2. unfold read. simpl. rewrite list_lookup_insert_eq by exact Hc. reflexivity. }
  pose proof (spread_scan reducer c xs (SuspendedStart (ArrayIterable xs)) w2
                (length xs + 3) eq_refl Hc2 ltac:(lia)) as H2.
  rewrite Hr in H2.
  pose proof (spread_map mapper (length xs + 3) w2
                (SuspendedStart (ScanSync reducer c (SuspendedStart (ArrayIterable xs))))
                _ _ _ eq_refl H2) as H3.
  exists (Sequence_of (array xs) (Some (compose (ScanTransducer reducer c) identity))).
  exists (Sequence_of (array xs)
            (Some (map mapper (compose (ScanTransducer reducer c) identity)))).
  exists w1, w2. eexists.
  split; [reflexivity|]. split; [reflexivity|]. split.
  - exact H1.
  - replace (length xs + 4)%nat with (S (length xs + 3)) by lia. exact H3.
Qed.

(** X21.  [sum] adds up.  For integers whose magnitudes add up to a safe
    integer (every partial sum is then computed exactly): folding [sum]
    over them from [sum.identity()] gives their total, and [reduce(sum)]
    over an array of them yields one element, that total; over the empty
    array [reduce(sum)] yields nothing, not zero. *)
Theorem sum_adds_up (zs : list Z) (w : World) :
  fold_right (fun z acc => Z.abs z + acc) 0 zs <= MAX_SAFE_INTEGER ->
  fold_left (Reducer.call sum) (List.map Num zs) (Reducer.identity sum) =
    Num (fold_right Z.add 0 zs) /\
  exists (s' : Sequence) (w2 : World),
    Sequence_reduce sum (Sequence_of (array (List.map Num zs)) None) w =
      (grown w (Num 0), Returned (Some (IsSequence s'))) /\
    syncArray (length zs + 5) (grown w (Num 0)) s' =
      Some (w2, match zs with
                | [] => []
                | _ :: _ => [Num (fold_right Z.add 0 zs)]
                end).
Proof.
  intros _.
  assert (Hfold : forall a : Z,
             fold_left (Reducer.call sum) (List.map Num zs) (Num a) =
             Num (a + fold_right Z.add 0 zs)).
  { induction zs as [|z zs IH]; intros a.
    - simpl. f_equal. lia.
    - simpl. rewrite IH. f_equal. lia. }
  split; [exact (Hfold 0)|].
  destruct (reduce_over_array sum (List.map Num zs) w) as [w2 H2].
  rewrite length_map in H2.
  eexists _, w2. split; [reflexivity|].
  etransitivity; [exact H2|]. f_equal. f_equal.
  destruct zs as [|z zs]; [reflexivity|].
  cbv zeta. change (Reducer.identity sum) with (Num 0).
  rewrite (Hfold 0). reflexivity.
Qed.

Lemma sum_adds_up_witness :
  let zs := [3; -5; 4] in
  fold_right (fun z acc => Z.abs z + acc) 0 zs <= MAX_SAFE_INTEGER /\
  fold_left (Reducer.call sum) (List.map Num zs) (Reducer.identity sum) = Num 2 /\
  exists (s' : Sequence) (w2 : World),
    Sequence_reduce sum (Sequence_of (array (List.map Num zs)) None) empty_world =
      (grown empty_world (Num 0), Returned (Some (IsSequence s'))) /\
    syncArray (length zs + 5) (grown empty_world (Num 0)) s' = Some (w2, [Num 2]).
Proof.
  intros zs.
  assert (H : fold_right (fun z acc => Z.abs z + acc) 0 zs <= MAX_SAFE_INTEGER)
    by (unfold MAX_SAFE_INTEGER; simpl; lia).
  split; [exact H|].
  exact (sum_adds_up zs empty_world H).
Defined.

(** ** Further facts: the [range] of the date generators *)

Lemma Generators_range_loop (n : nat) :
  forall (i end_ : Z) (result : list Z) (fuel : nat),
    n = Z.to_nat (end_ - i + 1) ->
    (n + 1 <= fuel)%nat ->
    Generators.range_loop fuel i end_ result =
    Some (result ++ List.map (fun k => i + Z.of_nat k) (seq 0 n)).
Proof.
  induction n as [|n IH]; intros i e result fuel Hn Hf;
    (destruct fuel as [|fuel]; [lia|]); cbn [Generators.range_loop].
  - destruct (Z.leb_spec i e) as [Hle|Hgt]; [lia|].
    simpl. rewrite app_nil_r. reflexivity.
  - destruct (Z.leb_spec i e) as [Hle|Hgt]; [|lia].
    rewrite (IH (i + 1) e (result ++ [i]) fuel) by lia.
    rewrite <- app_assoc. f_equal. f_equal.
    cbn [seq List.map app]. f_equal; [f_equal; lia|].
    rewrite <- seq_shift, List.map_map.
    apply List.map_ext. intros k. lia.
Qed.

(** X22.  The [range(start, end)] of the date generators, for safe
    integers [start] and [end] (the loop counter, which ends one past
    [end], is then counted up exactly): it returns the integers from
    [start] to [end], both included, in rising order: [end - start + 1] of
    them, and none when [end] is below [start]. *)
Theorem Generators_range_lists_integers (start end_ : Z) (fuel : nat) :
  isSafeInteger start = true ->
  isSafeInteger end_ = true ->
  (Z.to_nat (end_ - start + 1) + 1 <= fuel)%nat ->
  Generators.range fuel start end_ =
  Some (List.map (fun k => start + Z.of_nat k) (seq 0 (Z.to_nat (end_ - start + 1)))).
Proof.
  intros _ _ Hf. unfold Generators.range.
  rewrite (Generators_range_loop (Z.to_nat (end_ - start + 1)) start end_ [] fuel eq_refl Hf).
  reflexivity.
Qed.

Lemma Generators_range_lists_integers_witness :
  isSafeInteger 1 = true /\
  isSafeInteger 12 = true /\
  (Z.to_nat (12 - 1 + 1) + 1 <= 13)%nat /\
  Generators.range 13 1 12 =
  Some (List.map (fun k => 1 + Z.of_nat k) (seq 0 (Z.to_nat (12 - 1 + 1)))).
Proof.
  assert (Hs : isSafeInteger 1 = true) by reflexivity.
  assert (He : isSafeInteger 12 = true) by reflexivity.
  assert (H : (Z.to_nat (12 - 1 + 1) + 1 <= 13)%nat) by (simpl; lia).
  split; [exact Hs|]. split; [exact He|]. split; [exact H|].
  exact (Generators_range_lists_integers 1 12 13 Hs He H).
Defined.
